(** * youtube-review-tool: the telop detector, the event fuser and the
      orchestration skeleton of [app.py], embedded in Rocq.

    Layout of the development:
    - [Py]        the fragments of Python's semantics that [app.py] relies on:
                  exceptions, [str] as a sequence of code points, [float] as
                  IEEE-754 binary64, [int(..)], [math.ceil], [%], [/];
    - [Telop]     the per-frame body of the [while cap.isOpened()] loop of
                  [process_video] (OCR filter, novelty decision, sampling);
    - [Pipeline]  [process_video] as a whole, with its [try ... finally];
    - [Fusion]    the display logic that builds [grouped_events],
                  [sorted_timestamps] and [jump_url];
    - the theorems. *)

From Stdlib Require Import ZArith QArith Qround List Bool Lia String Ascii.
From Stdlib Require Import DecimalString.
From Stdlib Require Import Floats.SpecFloat.
From stdpp Require Import gmap list sorting.

Local Open Scope Z_scope.

(* ===================================================================== *)
(** * Python semantics used by the source                                 *)
(* ===================================================================== *)

Module Py.

(** ** Exceptions and the error monad *)

(** The exceptions that the modelled statements can raise.  The three
    [..Failure] constructors stand for whatever the external collaborators
    (yt_dlp, whisper, pytesseract) raise. *)
Inductive exn : Type :=
  | ZeroDivisionError
  | ValueError
  | OverflowError
  | IndexError
  | DownloadFailure
  | TranscribeFailure
  | OcrFailure.

Inductive result (A : Type) : Type :=
  | Ok (a : A)
  | Raise (e : exn).
Arguments Ok {A} a.
Arguments Raise {A} e.

Definition bind {A B} (r : result A) (k : A -> result B) : result B :=
  match r with
  | Ok a => k a
  | Raise e => Raise e
  end.

#[export] Instance result_ret : MRet result := fun A a => Ok a.
#[export] Instance result_bind : MBind result := fun A B k r => bind r k.

Definition is_ok {A} (r : result A) : bool :=
  match r with Ok _ => true | Raise _ => false end.

(** A left fold whose step may raise: the shape of every [for] and [while]
    loop of the source (the first exception leaves the loop). *)
Fixpoint foldM {S X : Type} (step : S -> X -> result S) (xs : list X) (s : S)
  : result S :=
  match xs with
  | [] => Ok s
  | x :: xs' => s' ← step s x; foldM step xs' s'
  end.

(** ** [str]: a sequence of Unicode code points *)

Definition char := N.
Definition str := list char.

(** An ASCII literal as a [str]. *)
Definition lit (s : string) : str :=
  List.map N_of_ascii (list_ascii_of_string s).

(** [bool(s)] for a [str]: non-empty. *)
Definition truthy (s : str) : bool :=
  match s with [] => false | _ => true end.

(** [len(s)]. *)
Definition len (s : str) : Z := Z.of_nat (length s).

(** [c.isspace()]: the code points CPython's [_PyUnicode_IsWhitespace]
    accepts. *)
Definition isspace (c : char) : bool :=
  ((9 <=? c) && (c <=? 13) || (28 <=? c) && (c <=? 32)
   || (c =? 133) || (c =? 160) || (c =? 5760)
   || (8192 <=? c) && (c <=? 8202)
   || (c =? 8232) || (c =? 8233) || (c =? 8239) || (c =? 8287)
   || (c =? 12288))%N.

Fixpoint lstrip (s : str) : str :=
  match s with
  | [] => []
  | c :: s' => if isspace c then lstrip s' else s
  end.

Definition rstrip (s : str) : str := rev (lstrip (rev s)).

(** [s.strip()] *)
Definition strip (s : str) : str := rstrip (lstrip s).

(** [''.join(parts)] *)
Definition join (parts : list str) : str := List.concat parts.

(** [s.split(sep)] for a one-character separator: the pieces between the
    occurrences of [sep], always at least one piece. *)
Fixpoint split (sep : char) (s : str) : list str :=
  match s with
  | [] => [[]]
  | c :: s' =>
      if (c =? sep)%N then [] :: split sep s'
      else match split sep s' with
           | piece :: rest => (c :: piece) :: rest
           | [] => [[c]]
           end
  end.

(** [l[i]] on a list *)
Definition index {A} (l : list A) (i : nat) : result A :=
  match nth_error l i with
  | Some a => Ok a
  | None => Raise IndexError
  end.

(** [str(k)] for an [int]: decimal digits, with a leading minus sign. *)
Definition str_of_int (k : Z) : str :=
  lit (NilZero.string_of_int (Z.to_int k)).

(** ** [float]: IEEE-754 binary64, after the Standard Library's SpecFloat *)

Definition float := spec_float.

Definition prec : Z := 53.
Definition emax : Z := 1024.

Definition fdiv : float -> float -> float := SFdiv prec emax.
Definition fsub : float -> float -> float := SFsub prec emax.
Definition fltb : float -> float -> bool := SFltb.

(** [float(k)] for an [int] (exact below 2^53, rounded to nearest even
    above; CPython raises OverflowError where this yields an infinity, at
    2^1024, far beyond any frame count or text length). *)
Definition float_of_int (k : Z) : float := binary_normalize prec emax k 0 false.

(** The literals [1.0] and [0.9]. *)
Definition f_1_0 : float := S754_finite false 4503599627370496 (-52).
Definition f_0_9 : float := S754_finite false 8106479329266893 (-53).

Definition is_zero (x : float) : bool :=
  match x with S754_zero _ => true | _ => false end.

(** [a / b] on two [int]s (true division). *)
Definition truediv_int (a b : Z) : result float :=
  if b =? 0 then Raise ZeroDivisionError
  else Ok (fdiv (float_of_int a) (float_of_int b)).

(** [a / x] with [a] an [int] and [x] a [float]. *)
Definition truediv_int_float (a : Z) (x : float) : result float :=
  if is_zero x then Raise ZeroDivisionError
  else Ok (fdiv (float_of_int a) x).

(** [a % b] on [int]s: the sign follows the divisor, as [Z.modulo]. *)
Definition mod_int (a b : Z) : result Z :=
  if b =? 0 then Raise ZeroDivisionError else Ok (a mod b).

(** The integer [±m * 2^e] cut towards zero, and rounded towards
    +infinity. *)
Definition trunc_mag (m : positive) (e : Z) : Z :=
  if 0 <=? e then Z.shiftl (Zpos m) e else Z.shiftr (Zpos m) (- e).

Definition ceil_mag (m : positive) (e : Z) : Z :=
  if 0 <=? e then Z.shiftl (Zpos m) e
  else - Z.shiftr (Zneg m) (- e).

(** [int(x)] for a [float]: truncation towards zero. *)
Definition int_of_float (x : float) : result Z :=
  match x with
  | S754_zero _ => Ok 0
  | S754_finite s m e => Ok (cond_Zopp s (trunc_mag m e))
  | S754_infinity _ => Raise OverflowError
  | S754_nan => Raise ValueError
  end.

(** [math.ceil(x)] *)
Definition ceil (x : float) : result Z :=
  match x with
  | S754_zero _ => Ok 0
  | S754_finite false m e => Ok (ceil_mag m e)
  | S754_finite true m e => Ok (- trunc_mag m e)
  | S754_infinity _ => Raise OverflowError
  | S754_nan => Raise ValueError
  end.

(** The real number a finite float denotes. *)
Definition value (x : float) : option Q :=
  match x with
  | S754_zero _ => Some 0%Q
  | S754_finite s m e =>
      Some (if 0 <=? e then inject_Z (cond_Zopp s (Zpos m * 2 ^ e))
            else Qmake (cond_Zopp s (Zpos m)) (Z.to_pos (2 ^ (- e))))
  | _ => None
  end.

(** A finite float that is not below zero. *)
Definition nonneg (x : float) : bool :=
  match x with
  | S754_zero _ => true
  | S754_finite s _ _ => negb s
  | _ => false
  end.

(** A finite float above zero. *)
Definition positive_float (x : float) : bool :=
  match x with
  | S754_finite false _ _ => true
  | _ => false
  end.

(** ** [Levenshtein.distance]: the classic edit distance (insertion,
       deletion and substitution, each of cost one) *)

Fixpoint distance (s t : str) : nat :=
  match s with
  | [] => length t
  | a :: s' =>
      (fix against (t : str) : nat :=
         match t with
         | [] => length s
         | b :: t' =>
             if (a =? b)%N then distance s' t'
             else S (Nat.min (distance s' t) (Nat.min (against t') (distance s' t')))
         end) t
  end.

Arguments fdiv : simpl never.
Arguments fsub : simpl never.
Arguments fltb : simpl never.
Arguments float_of_int : simpl never.
Arguments distance : simpl never.
Arguments strip : simpl never.
Arguments str_of_int : simpl never.
Arguments lit : simpl never.

End Py.

Import Py.

(* ===================================================================== *)
(** * The telop detector: body of the frame loop of [process_video]       *)
(* ===================================================================== *)

Module Telop.

(** [pytesseract.image_to_data(.., output_type=Output.DICT)]: parallel
    arrays; only the 'text' and 'conf' columns are read.  The entries of
    'conf' are the integers [int(ocr_data['conf'][i])] evaluates to. *)
Record ocr_data : Type := { ocr_text : list str; ocr_conf : list Z }.

(** An entry of [telop_screenshots]. *)
Record shot : Type := {
  shot_timestamp : float;
  shot_image_str : str;
  shot_text : str
}.

(** The variables the frame loop updates, [frame_count] apart. *)
Record detector : Type := {
  telop_screenshots : list shot;
  last_text_block : str
}.

(** Lines 64-65: the state before the first frame. *)
Definition detector_init : detector :=
  {| telop_screenshots := []; last_text_block := [] |}.

(** Lines 79-83, one turn of [for i in range(len(ocr_data['text']))]. *)
Definition collect_part (data : ocr_data) (current_text_parts : list str)
    (i : nat) : result (list str) :=
  conf ← index (ocr_conf data) i;
  if 60 <? conf then
    raw ← index (ocr_text data) i;
    let text := strip raw in
    if truthy text then Ok (current_text_parts ++ [text])
    else Ok current_text_parts
  else Ok current_text_parts.

(** Lines 78-85: [current_text_block]. *)
Definition current_text_block (data : ocr_data) : result str :=
  parts ← foldM (collect_part data) (seq 0 (length (ocr_text data))) [];
  Ok (join parts).

(** Line 92 *)
Definition max_len (current last : str) : Z := Z.max (len current) (len last).

(** Line 94 *)
Definition similarity (current last : str) : result float :=
  ratio ← truediv_int (Z.of_nat (distance current last)) (max_len current last);
  Ok (fsub f_1_0 ratio).

(** Lines 87-96: the value of [is_new_subtitle] when line 98 tests it. *)
Definition is_new_subtitle (current last : str) : result bool :=
  if truthy current then
    if negb (truthy last) then Ok true
    else
      if 0 <? max_len current last then
        sim ← similarity current last;
        if fltb sim f_0_9 then Ok true else Ok false
      else Ok false
  else Ok false.

(** The leaves of the control flow of lines 87-96, for statements about
    which branch a run takes. *)
Inductive novelty_path : Type :=
  | CurrentEmpty
  | LastEmpty
  | GuardFalse
  | Compared (divisor : Z).

Definition path_of (current last : str) : novelty_path :=
  if truthy current then
    if negb (truthy last) then LastEmpty
    else
      if 0 <? max_len current last then Compared (max_len current last)
      else GuardFalse
  else CurrentEmpty.

Section Frames.
(** A decoded frame, and the external functions applied to it:
    [frame[height // 2:, :]], [pytesseract.image_to_data],
    and [base64.b64encode(cv2.imencode('.jpg', frame)[1]).decode()]. *)
Context {image : Type}.
Variable lower_half : image -> image.
Variable image_to_data : image -> result ocr_data.
Variable encode_jpg : image -> str.

(** Lines 74-102: what the loop does with a sampled frame. *)
Definition detect (d : detector) (timestamp : float) (frame : image)
  : result detector :=
  let roi := lower_half frame in
  data ← image_to_data roi;
  current ← current_text_block data;
  new ← is_new_subtitle current (last_text_block d);
  if new : bool then
    let img_str := encode_jpg frame in
    Ok {| telop_screenshots :=
            telop_screenshots d ++
            [{| shot_timestamp := timestamp; shot_image_str := img_str;
                shot_text := current |}];
          last_text_block := current |}
  else Ok d.

(** Lines 72-107: one turn of the [while] loop, for the frame
    [cap.read()] returned, with [on_sample] for lines 74-102. *)
Definition frame_step {S : Type} (on_sample : S -> float -> image -> result S)
    (fps : float) (st : S * Z) (frame : image) : result (S * Z) :=
  let '(s, frame_count) := st in
  period ← ceil fps;
  r ← mod_int frame_count period;
  s' ← (if r =? 0 then
          timestamp ← truediv_int_float frame_count fps;
          on_sample s timestamp frame
        else Ok s);
  Ok (s', frame_count + 1).

(** Lines 68-107: the loop over the frames [cap.read()] delivers before
    it reports [ret = False]. *)
Definition frame_loop {S : Type} (on_sample : S -> float -> image -> result S)
    (fps : float) (frames : list image) (s : S) : result (S * Z) :=
  foldM (frame_step on_sample fps) frames (s, 0).

(** Lines 68-107 with [detect] for lines 74-102.  The progress report of
    lines 104-106 assigns to none of the variables of the loop;
    [Reporting.frame_step_reporting] is the turn of the loop with it. *)
Definition telop_loop (fps : float) (frames : list image)
  : result (detector * Z) :=
  frame_loop detect fps frames detector_init.
End Frames.

End Telop.

(* ===================================================================== *)
(** * [process_video]: download, transcription, frame loop, cleanup       *)
(* ===================================================================== *)

Module Pipeline.
Import Telop.

(** The file system as far as the source looks at it: the paths that
    exist, each with its size ([os.path.exists], [os.path.getsize],
    [os.remove]). *)
Abbreviation files := (gmap str Z).

Definition path_exists (p : str) (w : files) : bool :=
  match w !! p with Some _ => true | None => false end.

(** [os.remove(p)] on an existing path. *)
Definition remove (p : str) (w : files) : files := delete p w.

(** Line 17 *)
Definition cookie_file_path : str := lit "cookies.txt".

(** Lines 42-48 *)
Record ydl_opts : Type := {
  opt_format : str;
  opt_outtmpl : str;
  opt_cookies : option str
}.

(** What [process_video] reads of [info_dict]: the extension that
    [prepare_filename] substitutes for [%(ext)s] in 'outtmpl'. *)
Record info_dict : Type := { info_ext : str }.

(** [ydl.prepare_filename(info_dict)] for the template of line 44. *)
Definition prepare_filename (info : info_dict) : str :=
  lit "temp_video." ++ info_ext info.

(** An element of [audio_result['segments']]. *)
Record segment : Type := { seg_start : float; seg_text : str }.

(** An element of [voice_data]. *)
Record voice : Type := { voice_timestamp : float; voice_text : str }.

Section Run.
Context {image : Type}.

(** [cv2.VideoCapture(video_path)]: whether it opened, its
    CAP_PROP_FPS, and the frames [cap.read()] yields until [ret] is
    false. *)
Record capture : Type := {
  cap_opened : bool;
  cap_fps : float;
  cap_frames : list image
}.

(** The collaborators.  Each may raise; the downloader and the
    transcriber may change the file system in any way. *)
Variable extract_info : ydl_opts -> str -> files -> result info_dict * files.
Variable transcribe : str -> files -> result (list segment) * files.
Variable video_capture : str -> files -> capture.
Variable lower_half : image -> image.
Variable image_to_data : image -> result ocr_data.
Variable encode_jpg : image -> str.

(** Line 36 *)
Definition use_cookie (w : files) : bool :=
  match w !! cookie_file_path with
  | Some size => 0 <? size
  | None => false
  end.

(** Lines 42-48 *)
Definition make_opts (w : files) : ydl_opts :=
  {| opt_format := lit "best[ext=mp4][height<=720]";
     opt_outtmpl := lit "temp_video.%(ext)s";
     opt_cookies := if use_cookie w then Some cookie_file_path else None |}.

(** Line 57 *)
Definition voice_of_segment (sg : segment) : voice :=
  {| voice_timestamp := seg_start sg; voice_text := strip (seg_text sg) |}.

(** The frames the [while cap.isOpened()] loop reads. *)
Definition frames_read (cap : capture) : list image :=
  if cap_opened cap then cap_frames cap else [].

(** Lines 41-108, the body of [try]: its outcome, the value of the local
    [video_path] when control leaves it ([None] until line 52), and the
    file system at that point. *)
Definition try_body (url : str) (w : files)
  : result (list voice * list shot) * option str * files :=
  match extract_info (make_opts w) url w with
  | (Raise e, w1) => (Raise e, None, w1)
  | (Ok info, w1) =>
      let video_path := prepare_filename info in
      match transcribe video_path w1 with
      | (Raise e, w2) => (Raise e, Some video_path, w2)
      | (Ok segments, w2) =>
          let voice_data := List.map voice_of_segment segments in
          let cap := video_capture video_path w2 in
          match telop_loop lower_half image_to_data encode_jpg
                  (cap_fps cap) (frames_read cap) with
          | Raise e => (Raise e, Some video_path, w2)
          | Ok (d, _) =>
              (Ok (voice_data, telop_screenshots d), Some video_path, w2)
          end
      end
  end.

(** Lines 109-110, the [finally] clause. *)
Definition cleanup (video_path : option str) (w : files) : files :=
  match video_path with
  | Some p => if truthy p && path_exists p w then remove p w else w
  | None => w
  end.

(** Lines 31-113.  The progress bar is not part of the model. *)
Definition process_video (url : str) (w : files)
  : result (list voice * list shot) * files :=
  let '(r, video_path, w') := try_body url w in
  (r, cleanup video_path w').
End Run.

End Pipeline.

(* ===================================================================== *)
(** * The display logic: [grouped_events], [sorted_timestamps], [jump_url] *)
(* ===================================================================== *)

Module Fusion.
Import Telop Pipeline.

Inductive event_type : Type := Voice | TelopShot.

(** An element of [all_events]; 'text' is present on telop events only. *)
Record event : Type := {
  ev_timestamp : float;
  ev_type : event_type;
  ev_data : str;
  ev_text : option str
}.

(** Line 136 *)
Definition event_of_voice (item : voice) : event :=
  {| ev_timestamp := voice_timestamp item; ev_type := Voice;
     ev_data := voice_text item; ev_text := None |}.

(** Line 138 *)
Definition event_of_shot (item : shot) : event :=
  {| ev_timestamp := shot_timestamp item; ev_type := TelopShot;
     ev_data := shot_image_str item; ev_text := Some (shot_text item) |}.

(** Lines 134-138 *)
Definition all_events (voice_data : list voice) (telop_screenshots : list shot)
  : list event :=
  List.map event_of_voice voice_data ++ List.map event_of_shot telop_screenshots.

(** A value of [grouped_events]. *)
Record group : Type := { g_voice : list event; g_telop : list event }.

Definition empty_group : group := {| g_voice := []; g_telop := [] |}.

Definition append_to (e : event) (g : group) : group :=
  match ev_type e with
  | Voice => {| g_voice := g_voice g ++ [e]; g_telop := g_telop g |}
  | TelopShot => {| g_voice := g_voice g; g_telop := g_telop g ++ [e] |}
  end.

(** Line 142 *)
Definition time_key (e : event) : result Z := int_of_float (ev_timestamp e).

(** Lines 142-149, one turn of [for event in all_events]. *)
Definition add_event (grouped : gmap Z group) (e : event)
  : result (gmap Z group) :=
  k ← time_key e;
  let grouped' :=
    match grouped !! k with
    | None => <[k := empty_group]> grouped
    | Some _ => grouped
    end in
  Ok (alter (append_to e) k grouped').

(** Lines 140-149 *)
Definition grouped_events (events : list event) : result (gmap Z group) :=
  foldM add_event events ∅.

(** Line 152 *)
Definition sorted_timestamps (grouped : gmap Z group) : list Z :=
  merge_sort Z.le (map_to_list grouped).*1.

(** Line 158 *)
Definition jump_url (youtube_url : str) (ts : Z) : result str :=
  base ← index (split 38%N youtube_url) 0;
  Ok (base ++ lit "&t=" ++ str_of_int ts ++ lit "s").

(** What the loop of lines 154-174 renders for one key. *)
Record row : Type := { row_key : Z; row_group : group; row_jump_url : str }.

(** Lines 155 and 158, one turn of [for ts in sorted_timestamps]: the
    group and the link of a key.  The label of line 157 is
    [Display.timedelta_str], applied in [Display.display_row]. *)
Definition render_row (youtube_url : str) (grouped : gmap Z group) (ts : Z)
  : result row :=
  match grouped !! ts with
  | None => Raise IndexError
  | Some g =>
      url ← jump_url youtube_url ts;
      Ok {| row_key := ts; row_group := g; row_jump_url := url |}
  end.

Definition render_step (youtube_url : str) (grouped : gmap Z group)
    (rows : list row) (ts : Z) : result (list row) :=
  r ← render_row youtube_url grouped ts;
  Ok (rows ++ [r]).

(** Lines 134-155 and 158: the rows (key, group and link) that the loop
    of lines 154-174 goes through for a result of [process_video].  What
    that loop shows for them, from line 157 on, is [Display.display]. *)
Definition fuse (youtube_url : str) (voice_data : list voice)
    (telop_screenshots : list shot) : result (list row) :=
  grouped ← grouped_events (all_events voice_data telop_screenshots);
  foldM (render_step youtube_url grouped) (sorted_timestamps grouped) [].

End Fusion.

Import Telop Pipeline Fusion.

(* ===================================================================== *)
(** * Specification-side definitions                                      *)
(* ===================================================================== *)

Module Spec.

(** ** Strings *)

(** The longest prefix of [s] without [sep]. *)
Fixpoint before (sep : char) (s : str) : str :=
  match s with
  | [] => []
  | c :: s' => if (c =? sep)%N then [] else c :: before sep s'
  end.

(** ** The OCR confidence filter *)

(** The recognised tokens, each with its confidence, in recognition
    order. *)
Definition tokens (data : ocr_data) : list (str * Z) :=
  zip (ocr_text data) (ocr_conf data).

Definition confident (tc : str * Z) : bool := 60 <? tc.2.

(** The text block as the specification words it: the confident tokens,
    joined as they are. *)
Definition block_of_raw_tokens (data : ocr_data) : str :=
  concat (List.map fst (List.filter confident (tokens data))).

(** The same with every confident token stripped of the white space
    around it. *)
Definition block_of_stripped_tokens (data : ocr_data) : str :=
  concat (List.map (fun tc => strip tc.1) (List.filter confident (tokens data))).

(** The parts the loop of lines 79-83 appends for the tokens [ts], [cs]. *)
Fixpoint parts_of (ts : list str) (cs : list Z) : list str :=
  match ts, cs with
  | t :: ts', c :: cs' =>
      (if 60 <? c then if truthy (strip t) then [strip t] else [] else [])
      ++ parts_of ts' cs'
  | _, _ => []
  end.

(** ** The novelty decision *)

(** [d'] extends the screenshots of [d] by the event [s], or leaves them
    alone. *)
Definition emits (d d' : detector) (s : shot) : Prop :=
  telop_screenshots d' = telop_screenshots d ++ [s].

Definition silent (d d' : detector) : Prop :=
  telop_screenshots d' = telop_screenshots d.

(** [1 - levenshtein_distance(current, last) / max(len(current), len(last))
    < 0.9], in binary64 arithmetic. *)
Definition below_threshold (current last : str) : bool :=
  fltb (fsub f_1_0
          (fdiv (float_of_int (Z.of_nat (distance current last)))
                (float_of_int (Z.max (len current) (len last)))))
       f_0_9.

(** The same comparison over the rationals: [1 - d/m < 9/10] for [m > 0]
    is [m < 10 * d]. *)
Definition below_threshold_exact (current last : str) : bool :=
  Z.max (len current) (len last) <? 10 * Z.of_nat (distance current last).

(** The binary64 test and the exact test agree on the distance [d] and the
    longer length [m]; and on every [d <= m] for [m] from 1 to [bound]. *)
Definition agrees (d m : nat) : bool :=
  Bool.eqb
    (fltb (fsub f_1_0 (fdiv (float_of_int (Z.of_nat d))
                            (float_of_int (Z.of_nat m)))) f_0_9)
    (Z.of_nat m <? 10 * Z.of_nat d).

Definition agrees_upto (bound : nat) : bool :=
  forallb (fun m => forallb (fun d => agrees d m) (seq 0 (S m))) (seq 1 bound).

(** ** Frame sampling *)

Definition is_sampled (period : Z) (i : nat) : bool :=
  Z.of_nat i mod period =? 0.

(** The frames with a sampled index, each with the quotient of its index
    by the frame rate. *)
Definition samples {image : Type} (fps : float) (period : Z)
    (frames : list image) : list (float * image) :=
  List.map (fun p => (fdiv (float_of_int (Z.of_nat p.1)) fps, p.2))
    (List.filter (fun p => is_sampled period p.1)
       (zip (seq 0 (length frames)) frames)).

Definition on_pair {S image : Type}
    (on_sample : S -> float -> image -> result S) (s : S) (p : float * image)
  : result S :=
  on_sample s p.1 p.2.

(** ** OCR failures *)

Definition no_tokens : ocr_data := {| ocr_text := []; ocr_conf := [] |}.

(** An OCR collaborator whose failures are caught and read as "no tokens
    in this frame". *)
Definition swallowing {image : Type} (image_to_data : image -> result ocr_data)
    (img : image) : result ocr_data :=
  match image_to_data img with
  | Ok data => Ok data
  | Raise _ => Ok no_tokens
  end.

(** An OCR failure only skips its frame: the loop behaves as if every
    failure had been caught and read as "no tokens". *)
Definition ocr_failure_skips_frame : Prop :=
  forall (image : Type) (lower_half : image -> image)
         (image_to_data : image -> result ocr_data) (encode_jpg : image -> str)
         (fps : float) (frames : list image),
    telop_loop lower_half image_to_data encode_jpg fps frames
    = telop_loop lower_half (swallowing image_to_data) encode_jpg fps frames.

(** ** Fusion *)

Definition in_bucket (k : Z) (e : event) : bool :=
  match time_key e with
  | Ok k' => k' =? k
  | Raise _ => false
  end.

Definition is_voice (e : event) : bool :=
  match ev_type e with Voice => true | TelopShot => false end.

Definition is_telop (e : event) : bool :=
  match ev_type e with Voice => false | TelopShot => true end.

(** The group that the events of [evs] with key [k] make up, each stream
    in its order in [evs]. *)
Definition group_of (evs : list event) (k : Z) : group :=
  {| g_voice := List.filter (fun e => is_voice e && in_bucket k e) evs;
     g_telop := List.filter (fun e => is_telop e && in_bucket k e) evs |}.

Definition members (g : group) : list event := g_voice g ++ g_telop g.

(** The integer floor of the number a finite float denotes. *)
Definition floor_of (x : float) : option Z :=
  match value x with
  | Some q => Some (Qfloor q)
  | None => None
  end.

(** ** The time anchor *)

(** The URL without everything from its first ampersand on. *)
Definition base_url (youtube_url : str) : str := before 38%N youtube_url.

(** The row displayed for the key [k] of [grouped]. *)
Definition row_for (youtube_url : str) (grouped : gmap Z group) (k : Z) : row :=
  {| row_key := k;
     row_group := default empty_group (grouped !! k);
     row_jump_url := base_url youtube_url ++ lit "&t=" ++ str_of_int k ++ lit "s" |}.

End Spec.

Import Spec.

(* ===================================================================== *)
(** * Concrete inputs                                                     *)
(* ===================================================================== *)

Module Examples.

(** The float nearest to the decimal [n / 10^k]. *)
Definition decimal (n : Z) (k : Z) : float :=
  fdiv (float_of_int n) (float_of_int (10 ^ k)).

(** OCR results: one confident token; and two confident words around a
    blank token of confidence 95, next to a low-confidence one. *)
Definition ocr_hello : ocr_data :=
  {| ocr_text := [lit "HELLO"]; ocr_conf := [96] |}.

Definition ocr_blank_token : ocr_data :=
  {| ocr_text := [lit "A"; lit " "; lit "B"; lit "x"];
     ocr_conf := [90; 95; 90; 60] |}.

(** A three-frame source, frames named by their index, read at 1 fps:
    the OCR engine fails on frame 1. *)
Definition three_frames : list nat := [0%nat; 1%nat; 2%nat].

Definition ocr_fails_on_1 (frame : nat) : result ocr_data :=
  match frame with
  | 1%nat => Raise OcrFailure
  | _ => Ok ocr_hello
  end.

Definition no_crop (frame : nat) : nat := frame.

Definition encode_name (frame : nat) : str := lit "jpg".

(** Scenario D of the specification. *)
Definition voice_12_3 : voice :=
  {| voice_timestamp := decimal 123 1; voice_text := lit "hello" |}.

Definition shot_12_9 : shot :=
  {| shot_timestamp := decimal 129 1; shot_image_str := lit "jpg";
     shot_text := lit "HELLO" |}.

Definition group_12 : group :=
  {| g_voice := [event_of_voice voice_12_3];
     g_telop := [event_of_shot shot_12_9] |}.

Definition watch_url : str := lit "https://www.youtube.com/watch?v=abc&list=PL1".

Definition row_12 : row := row_for watch_url {[ 12 := group_12 ]} 12.

(** A run of [process_video]: the download creates [temp_video.mp4], the
    transcription succeeds, the capture has the three frames above. *)
Definition mp4 : info_dict := {| info_ext := lit "mp4" |}.

Definition download_mp4 (opts : ydl_opts) (url : str) (w : files)
  : result info_dict * files :=
  (Ok mp4, <[prepare_filename mp4 := 1000]> w).

Definition transcribe_one (path : str) (w : files)
  : result (list segment) * files :=
  (Ok [{| seg_start := decimal 123 1; seg_text := lit " hello " |}], w).

Definition capture_three (path : str) (w : files) : capture :=
  {| cap_opened := true; cap_fps := float_of_int 1;
     cap_frames := three_frames |}.

End Examples.

Import Examples.

(* ===================================================================== *)
(** * Start-up code and the display of a row                              *)
(* ===================================================================== *)

Module Startup.

Section Encoding.

(** The number of bytes [f.write(content)] puts into a file opened in
    text mode: the size of [content] in the platform's encoding. *)
Variable encoded_size : str -> Z.

(** Lines 16-22, for the value [os.environ.get('YOUTUBE_COOKIE')] returned
    ([None] for an unset variable). *)
Definition create_cookie_file (youtube_cookie_content : option str)
    (w : files) : files :=
  match youtube_cookie_content with
  | Some content =>
      if truthy content && negb (path_exists cookie_file_path w)
      then <[cookie_file_path := encoded_size content]> w
      else w
  | None => w
  end.

End Encoding.

End Startup.

Module Reporting.

Section Progress.

Context {image : Type}.
Variable lower_half : image -> image.
Variable image_to_data : image -> result ocr_data.
Variable encode_jpg : image -> str.

(** Lines 104-106 at a frame count: the progress value and text are
    computed and handed to [progress_bar.progress], which raises for a
    value outside 0..100.  It changes no variable of the loop; what it
    returns or raises for each frame count is left open. *)
Variable report : Z -> result unit.

(** Lines 72-107, one turn of the [while] loop with the progress report
    of the sampled branch. *)
Definition frame_step_reporting (fps : float) (st : detector * Z)
    (frame : image) : result (detector * Z) :=
  let '(d, frame_count) := st in
  period ← ceil fps;
  r ← mod_int frame_count period;
  d' ← (if r =? 0 then
          timestamp ← truediv_int_float frame_count fps;
          d1 ← detect lower_half image_to_data encode_jpg d timestamp frame;
          _ ← report frame_count;
          Ok d1
        else Ok d);
  Ok (d', frame_count + 1).

End Progress.

End Reporting.

Module Display.

(** The Streamlit elements the loop of lines 154-174 creates. *)
Inductive widget : Type :=
  | Markdown (body : str) (unsafe_allow_html : bool)
  | Image (src : str)
  | Caption (body : str).

(** What that loop can raise: a [KeyError] of a dict lookup, or one of
    the exceptions of [Py]. *)
Inductive failure : Type :=
  | KeyError
  | Builtin (e : exn).

Inductive outcome (A : Type) : Type :=
  | Done (a : A)
  | Failed (f : failure).
Arguments Done {A} a.
Arguments Failed {A} f.

#[export] Instance outcome_ret : MRet outcome := fun A a => Done a.
#[export] Instance outcome_bind : MBind outcome :=
  fun A B k r => match r with Done a => k a | Failed f => Failed f end.

(** [for x in xs: ...] where each turn creates elements or raises. *)
Fixpoint for_each {X W : Type} (body : X -> outcome (list W)) (xs : list X)
  : outcome (list W) :=
  match xs with
  | [] => Done []
  | x :: xs' => ws ← body x; rest ← for_each body xs'; Done (ws ++ rest)
  end.

(** [bool(l)] for a list. *)
Definition nonempty {X : Type} (l : list X) : bool :=
  match l with [] => false | _ => true end.

(** [n] formatted with [%02d]. *)
Definition pad2 (n : Z) : str :=
  if (0 <=? n) && (n <? 10) then lit "0" ++ str_of_int n else str_of_int n.

(** Line 157, [str(timedelta(seconds=ts))] for an [int]: the constructor
    normalises to days and seconds of the day and refuses more than
    999999999 days; [__str__] prints [H:MM:SS], after [D day(s), ] when
    the days are not zero. *)
Definition timedelta_str (ts : Z) : outcome str :=
  let days := ts / 86400 in
  let seconds := ts mod 86400 in
  if 999999999 <? Z.abs days then Failed (Builtin OverflowError)
  else
    let mm := seconds / 60 in
    let ss := seconds mod 60 in
    let hh := mm / 60 in
    let mm := mm mod 60 in
    let s := str_of_int hh ++ lit ":" ++ pad2 mm ++ lit ":" ++ pad2 ss in
    Done (if days =? 0 then s
          else str_of_int days ++ lit " day"
               ++ (if Z.abs days =? 1 then [] else lit "s") ++ lit ", " ++ s).

(** The double quote. *)
Definition dquote : str := [34%N].

(** Lines 162 and 169: the heading with the time anchor, after the icon
    (speaking head or framed picture, each with a variation selector). *)
Definition heading (icon jump_url time_str : str) : widget :=
  Markdown (lit "##### <a href=" ++ dquote ++ jump_url ++ dquote
            ++ lit " target=" ++ dquote ++ lit "_blank" ++ dquote ++ lit ">"
            ++ icon ++ lit " [" ++ time_str ++ lit "]</a>") true.

Definition icon_voice : str := [128483%N; 65039%N].
Definition icon_telop : str := [128444%N; 65039%N].

(** Line 164 *)
Definition quote (voice_event : event) : widget :=
  Markdown (lit "> " ++ ev_data voice_event) false.

(** Lines 172-173, one turn of [for telop_event in group['telop']]. *)
Definition telop_widgets (telop_event : event) : outcome (list widget) :=
  let image := Image (lit "data:image/jpeg;base64," ++ ev_data telop_event) in
  match ev_text telop_event with
  | None => Failed KeyError
  | Some text =>
      Done [image;
            Caption ([35469; 35672; 12486; 12461; 12473; 12488]%N
                     ++ lit ": " ++ text)]
  end.

(** What is shown for one key: the elements of the two columns, and the
    rule below them. *)
Record shown : Type := {
  col1 : list widget;
  col2 : list widget;
  rule : widget
}.

(** Lines 155-174, one turn of [for ts in sorted_timestamps], for the row
    of that key. *)
Definition display_row (r : row) : outcome shown :=
  let group := row_group r in
  time_str ← timedelta_str (row_key r);
  let jump_url := row_jump_url r in
  let c1 :=
    if nonempty (g_voice group)
    then heading icon_voice jump_url time_str :: List.map quote (g_voice group)
    else [] in
  c2 ← (if nonempty (g_telop group)
        then
          let h := if nonempty (g_voice group) then []
                   else [heading icon_telop jump_url time_str] in
          ws ← for_each telop_widgets (g_telop group);
          Done (h ++ ws)
        else Done []);
  Done {| col1 := c1; col2 := c2; rule := Markdown (lit "---") false |}.

(** Lines 131-174: what is shown, key after key, for a result of
    [process_video] (the subheader of line 151 apart). *)
Definition display (youtube_url : str) (voice_data : list voice)
    (telop_screenshots : list shot) : outcome (list shown) :=
  match fuse youtube_url voice_data telop_screenshots with
  | Raise e => Failed (Builtin e)
  | Ok rows =>
      for_each (fun r => s ← display_row r; Done [s]) rows
  end.

End Display.


(* ===================================================================== *)
(** * Further specification-side definitions                              *)
(* ===================================================================== *)

Module Props.
Import Startup Reporting Display.

(** ** Strings *)

(** No white space at either end. *)
Definition trimmed (s : str) : Prop :=
  (forall c rest, s = c :: rest -> isspace c = false) /\
  (forall c front, s = front ++ [c] -> isspace c = false).

(** ** The detector *)

(** The text of the last of [shots], [prev] when there is none. *)
Definition last_text (prev : str) (shots : list shot) : str :=
  List.last (List.map shot_text shots) prev.

(** [current] passes the novelty test after [prev]. *)
Definition novel_after (prev current : str) : Prop :=
  current <> [] /\ (prev = [] \/ below_threshold current prev = true).

(** Each of [shots] passes the novelty test after its predecessor, the
    first one after [prev]. *)
Fixpoint chained (prev : str) (shots : list shot) : Prop :=
  match shots with
  | [] => True
  | s :: rest => novel_after prev (shot_text s) /\ chained (shot_text s) rest
  end.

(** The invariant of the frame loop: the screenshots are chained from the
    empty block, and [last_text_block] is the text of the last one. *)
Definition consistent (d : detector) : Prop :=
  chained [] (telop_screenshots d) /\
  last_text_block d = last_text [] (telop_screenshots d).

(** The timestamp and the encoded image of a screenshot, and those a
    sampled frame would give. *)
Definition shot_origin (s : shot) : float * str :=
  (shot_timestamp s, shot_image_str s).

Definition sample_origin {image : Type} (encode_jpg : image -> str)
    (p : float * image) : float * str :=
  (p.1, encode_jpg p.2).

(** The OCR result of a frame gives the text block [current]. *)
Definition reads {image : Type} (lower_half : image -> image)
    (image_to_data : image -> result ocr_data) (frame : image)
    (current : str) : Prop :=
  exists data, image_to_data (lower_half frame) = Ok data /\
               current_text_block data = Ok current.

(** ** Timestamps *)

Definition finite (x : float) : bool :=
  match x with
  | S754_zero _ | S754_finite _ _ _ => true
  | _ => false
  end.

(** The integer nearest to [q] in the direction of zero. *)
Definition towards_zero (q : Q) : Z :=
  if Qle_bool 0 q then Qfloor q else Qceiling q.

(** ** Display *)

Definition is_heading (w : widget) : bool :=
  match w with Markdown _ true => true | _ => false end.

Definition is_image (w : widget) : bool :=
  match w with Image _ => true | _ => false end.

Definition is_caption (w : widget) : bool :=
  match w with Caption _ => true | _ => false end.

(** The keys [timedelta] accepts: at most 999999999 days either way. *)
Definition in_timedelta_range (ts : Z) : Prop :=
  -999999999 * 86400 <= ts < 1000000000 * 86400.

End Props.

Import Startup Reporting Display Props.

(* ===================================================================== *)
(** * Further concrete inputs                                             *)
(* ===================================================================== *)

Module Cases.

(** An OCR engine that reads "HELLO" on frame 0 and "GOODBYE" afterwards,
    one that always reads "HELLO", and the detector after a first
    "HELLO". *)
Definition ocr_goodbye : ocr_data :=
  {| ocr_text := [lit "GOODBYE"]; ocr_conf := [91] |}.

Definition ocr_changes_at_1 (frame : nat) : result ocr_data :=
  match frame with
  | 0%nat => Ok ocr_hello
  | _ => Ok ocr_goodbye
  end.

Definition ocr_always_hello (frame : nat) : result ocr_data := Ok ocr_hello.

Definition shot_hello (timestamp : float) : shot :=
  {| shot_timestamp := timestamp; shot_image_str := lit "jpg";
     shot_text := lit "HELLO" |}.

Definition shot_goodbye (timestamp : float) : shot :=
  {| shot_timestamp := timestamp; shot_image_str := lit "jpg";
     shot_text := lit "GOODBYE" |}.

Definition seen_hello : detector :=
  {| telop_screenshots := [shot_hello (S754_zero false)];
     last_text_block := lit "HELLO" |}.

Definition seen_both : detector :=
  {| telop_screenshots :=
       [shot_hello (S754_zero false); shot_goodbye (float_of_int 1)];
     last_text_block := lit "GOODBYE" |}.

(** An OCR result with two texts and one confidence. *)
Definition ocr_short_conf : ocr_data :=
  {| ocr_text := [lit "A"; lit "B"]; ocr_conf := [90] |}.

(** A capture that did not open. *)
Definition capture_closed (path : str) (w : files) : capture :=
  {| cap_opened := false; cap_fps := S754_zero false;
     cap_frames := three_frames |}.

(** A capture that opened without a frame rate. *)
Definition capture_no_fps (path : str) (w : files) : capture :=
  {| cap_opened := true; cap_fps := S754_zero false;
     cap_frames := three_frames |}.

Definition ocr_never_fails (frame : nat) : result ocr_data := Ok ocr_hello.

(** A file size: one byte per character. *)
Definition one_byte_each (s : str) : Z := len s.

(** Events half a second before and after time zero, and one without a
    time. *)
Definition voice_at (timestamp : float) : voice :=
  {| voice_timestamp := timestamp; voice_text := lit "hello" |}.

Definition minus_half : float := decimal (-5) 1.

(** A progress report that never raises. *)
Definition report_ok (frame_count : Z) : result unit := Ok tt.

(** Two voice segments out of time order and a screenshot, in the seconds
    70 and 5; the groups and the rows they make up. *)
Definition voice_70_5 : voice := voice_at (decimal 705 1).
Definition voice_5_25 : voice := voice_at (decimal 525 2).

Definition shot_5_75 : shot :=
  {| shot_timestamp := decimal 575 2; shot_image_str := lit "jpg";
     shot_text := lit "HELLO" |}.

Definition group_5 : group :=
  {| g_voice := [event_of_voice voice_5_25];
     g_telop := [event_of_shot shot_5_75] |}.

Definition group_70 : group :=
  {| g_voice := [event_of_voice voice_70_5]; g_telop := [] |}.

Definition rows_5_70 : list row :=
  List.map (row_for watch_url {[ 5 := group_5; 70 := group_70 ]}) [5; 70].

Definition link_12 : str := lit "https://www.youtube.com/watch?v=abc&t=12s".

End Cases.

Import Cases.
(* ===================================================================== *)
(** * Facts about the Python fragment                                     *)
(* ===================================================================== *)

(** Runs the binds whose first computation is already a value. *)
Ltac run := cbn [mbind result_bind bind].

Section PyFacts.

Lemma bind_ok {A B} (r : result A) (k : A -> result B) (b : B) :
  (r ≫= k) = Ok b -> exists a, r = Ok a /\ k a = Ok b.
Proof. destruct r as [a|e]; simpl; [eauto | discriminate]. Qed.

Lemma foldM_app {S X} (step : S -> X -> result S) (xs ys : list X) (s : S) :
  foldM step (xs ++ ys) s = (foldM step xs s ≫= foldM step ys).
Proof.
  revert s. induction xs as [|x xs IH]; intros s; simpl; [reflexivity|].
  destruct (step s x) as [s'|e]; simpl; [apply IH | reflexivity].
Qed.

Lemma foldM_snoc {S X} (step : S -> X -> result S) (xs : list X) (x : X) (s : S) :
  foldM step (xs ++ [x]) s = (foldM step xs s ≫= fun s' => step s' x).
Proof.
  rewrite foldM_app. destruct (foldM step xs s) as [s'|e]; simpl; [|reflexivity].
  destruct (step s' x); reflexivity.
Qed.

Lemma pow2_pos (k : Z) : 0 <= k -> 0 < 2 ^ k.
Proof. intros Hk. apply Z.pow_pos_nonneg; lia. Qed.

(** [int(x)] is the floor of [x] for a finite [x >= 0]. *)
Lemma int_of_float_floor (x : float) :
  nonneg x = true ->
  exists q, value x = Some q /\ (0 <= q)%Q /\ int_of_float x = Ok (Qfloor q).
Proof.
  destruct x as [s|s| |s m e]; simpl; try discriminate.
  - intros _. exists 0%Q. repeat split. apply Qle_refl.
  - destruct s; simpl; [discriminate|]. intros _.
    unfold trunc_mag. destruct (Z.leb_spec 0 e) as [He|He].
    + eexists; split; [reflexivity|]. split.
      * change 0%Q with (inject_Z 0). rewrite <- Zle_Qle.
        pose proof (pow2_pos e He). nia.
      * rewrite Qfloor_Z, Z.shiftl_mul_pow2 by lia. reflexivity.
    + eexists; split; [reflexivity|]. split.
      * unfold Qle; simpl. lia.
      * rewrite Z.shiftr_div_pow2 by lia. simpl.
        rewrite Z2Pos.id by (apply pow2_pos; lia). reflexivity.
Qed.

(** [math.ceil(x)] is the ceiling of [x], and at least 1, for a finite
    [x > 0]. *)
Lemma ceil_positive (x : float) :
  positive_float x = true ->
  exists q, value x = Some q /\ (0 < q)%Q /\
            ceil x = Ok (Qceiling q) /\ 1 <= Qceiling q.
Proof.
  destruct x as [s|s| |s m e]; simpl; try discriminate.
  destruct s; [discriminate|]. intros _.
  unfold ceil_mag. destruct (Z.leb_spec 0 e) as [He|He]; simpl.
  - eexists; split; [reflexivity|].
    pose proof (pow2_pos e He) as Hp.
    rewrite Qceiling_Z, Z.shiftl_mul_pow2 by lia. repeat split.
    + change 0%Q with (inject_Z 0). rewrite <- Zlt_Qlt. nia.
    + nia.
  - eexists; split; [reflexivity|].
    pose proof (pow2_pos (- e) ltac:(lia)) as Hp.
    assert (Hd : Z.neg m / 2 ^ (- e) < 0)
      by (apply Z.div_lt_upper_bound; lia).
    rewrite Z.shiftr_div_pow2 by lia.
    unfold Qceiling, Qfloor, Qopp; simpl. rewrite Z2Pos.id by assumption.
    repeat split; try (unfold Qlt; simpl; lia); lia.
Qed.

Lemma positive_float_nonzero (x : float) :
  positive_float x = true -> is_zero x = false.
Proof. destruct x as [| | |[] ? ?]; simpl; congruence. Qed.

Lemma split_head (sep : char) (s : str) :
  exists rest, split sep s = before sep s :: rest.
Proof.
  induction s as [|c s [rest IH]]; simpl; [eauto|].
  destruct (c =? sep)%N; [eauto|]. rewrite IH. eauto.
Qed.

Lemma before_spec (sep : char) (s : str) :
  exists tail, s = before sep s ++ tail /\ (sep ∉ before sep s) /\
               (tail = [] \/ exists tail', tail = sep :: tail').
Proof.
  induction s as [|c s (tail & Heq & Hnot & Htail)]; simpl.
  - exists []. repeat split; [apply not_elem_of_nil | now left].
  - destruct (N.eqb_spec c sep) as [->|Hne].
    + exists (sep :: s). repeat split; [apply not_elem_of_nil | right; eauto].
    + exists tail. repeat split; [simpl; congruence | | assumption].
      rewrite not_elem_of_cons. split; [congruence | assumption].
Qed.

End PyFacts.

(* ===================================================================== *)
(** * The OCR confidence filter                                           *)
(* ===================================================================== *)

Section ConfidenceFilter.

Lemma index_app_length {A} (pre : list A) (x : A) (post : list A) (n : nat) :
  length pre = n -> index (pre ++ x :: post) n = Ok x.
Proof.
  intros <-. unfold index. rewrite nth_error_app2 by lia.
  rewrite Nat.sub_diag. reflexivity.
Qed.

Lemma collect_part_at (pre_t : list str) (pre_c : list Z) (t : str) (c : Z)
    (ts : list str) (cs : list Z) (acc : list str) :
  length pre_t = length pre_c ->
  collect_part {| ocr_text := pre_t ++ t :: ts; ocr_conf := pre_c ++ c :: cs |}
               acc (length pre_t)
  = Ok (acc ++ if 60 <? c then if truthy (strip t) then [strip t] else []
               else []).
Proof.
  intros Hpre. unfold collect_part; simpl.
  rewrite (index_app_length pre_c) by lia; simpl.
  destruct (60 <? c); [|now rewrite app_nil_r].
  rewrite (index_app_length pre_t) by lia; simpl.
  destruct (truthy (strip t)); [reflexivity | now rewrite app_nil_r].
Qed.

Lemma collect_parts_from (ts : list str) (cs : list Z) :
  length ts = length cs ->
  forall (pre_t : list str) (pre_c : list Z) (acc : list str),
    length pre_t = length pre_c ->
    foldM (collect_part {| ocr_text := pre_t ++ ts; ocr_conf := pre_c ++ cs |})
          (seq (length pre_t) (length ts)) acc
    = Ok (acc ++ parts_of ts cs).
Proof.
  revert cs. induction ts as [|t ts IH]; intros [|c cs] Hlen; try discriminate;
    intros pre_t pre_c acc Hpre.
  - simpl. rewrite app_nil_r. reflexivity.
  - injection Hlen as Hlen.
    cbn [length seq foldM parts_of].
    rewrite collect_part_at by assumption. cbn [mbind result_bind bind].
    specialize (IH cs Hlen (pre_t ++ [t]) (pre_c ++ [c])).
    rewrite !length_app in IH; cbn [length] in IH.
    rewrite <- !app_assoc in IH; cbn [app] in IH.
    replace (length pre_t + 1)%nat with (S (length pre_t)) in IH by lia.
    rewrite IH by lia. rewrite <- app_assoc. reflexivity.
Qed.

Lemma concat_parts_of (ts : list str) (cs : list Z) :
  concat (parts_of ts cs)
  = concat (List.map (fun tc => strip tc.1) (List.filter confident (zip ts cs))).
Proof.
  revert cs. induction ts as [|t ts IH]; intros [|c cs]; simpl; try reflexivity.
  unfold confident at 1; simpl. rewrite concat_app, IH.
  destruct (60 <? c); simpl; [|reflexivity].
  destruct (strip t); simpl; rewrite ?app_nil_r; reflexivity.
Qed.

(** The tokens the filter drops leave no trace: the block is that of the
    confident tokens alone. *)
Lemma filter_confident_idem (l : list (str * Z)) :
  List.filter confident (List.filter confident l) = List.filter confident l.
Proof.
  induction l as [|x l IH]; simpl; [reflexivity|].
  destruct (confident x) eqn:Hx; simpl; rewrite ?Hx, IH; reflexivity.
Qed.

End ConfidenceFilter.

(* ===================================================================== *)
(** * The confidence filter: theorems                                     *)
(* ===================================================================== *)

Section ConfidenceTheorems.

Lemma current_text_block_parts (data : ocr_data) :
  length (ocr_text data) = length (ocr_conf data) ->
  current_text_block data
  = Ok (concat (parts_of (ocr_text data) (ocr_conf data))).
Proof.
  intros Hlen. unfold current_text_block. destruct data as [ts cs]; simpl in *.
  pose proof (collect_parts_from ts cs Hlen [] [] [] eq_refl) as H.
  simpl in H. rewrite H. reflexivity.
Qed.

Lemma filter_confident_none (l : list (str * Z)) :
  Forall (fun tc => tc.2 <= 60) l -> List.filter confident l = [].
Proof.
  induction 1 as [|tc l Htc _ IH]; simpl; [reflexivity|].
  unfold confident at 1. destruct (Z.ltb_spec 60 tc.2); [lia | exact IH].
Qed.

(** C2, amended.  With the two OCR columns of equal length,
    [current_text_block] is the concatenation, in recognition order and
    without separator, of the white-space-stripped texts of exactly the
    tokens of confidence above 60; tokens of confidence 60 or less
    contribute nothing. *)
Theorem current_text_block_stripped (data : ocr_data) :
  length (ocr_text data) = length (ocr_conf data) ->
  current_text_block data = Ok (block_of_stripped_tokens data) /\
  (Forall (fun tc => tc.2 <= 60) (tokens data) ->
   current_text_block data = Ok []).
Proof.
  intros Hlen.
  assert (H : current_text_block data = Ok (block_of_stripped_tokens data)).
  { rewrite current_text_block_parts by assumption.
    rewrite concat_parts_of. reflexivity. }
  split; [exact H|]. intros Hlow. rewrite H. unfold block_of_stripped_tokens.
  rewrite filter_confident_none by assumption. reflexivity.
Qed.

Lemma current_text_block_stripped_witness :
  length (ocr_text ocr_blank_token) = length (ocr_conf ocr_blank_token) /\
  current_text_block ocr_blank_token = Ok (lit "AB").
Proof.
  split; [reflexivity|].
  destruct (current_text_block_stripped ocr_blank_token eq_refl) as [H _].
  rewrite H. reflexivity.
Defined.

(** C2 as worded fails: a blank token of confidence 95 is dropped by the
    code, while the concatenation of the confident tokens keeps it. *)
Lemma raw_tokens_counterexample :
  block_of_raw_tokens ocr_blank_token = lit "A B" /\
  current_text_block ocr_blank_token = Ok (lit "AB") /\
  current_text_block ocr_blank_token <> Ok (block_of_raw_tokens ocr_blank_token).
Proof. repeat split. discriminate. Qed.

End ConfidenceTheorems.

(* ===================================================================== *)
(** * The threshold in exact arithmetic                                   *)
(* ===================================================================== *)

Section Threshold.

Lemma distance_cons_cons (a b : char) (s t : str) :
  distance (a :: s) (b :: t)
  = if (a =? b)%N then distance s t
    else S (Nat.min (distance s (b :: t))
                    (Nat.min (distance (a :: s) t) (distance s t))).
Proof. reflexivity. Qed.

Lemma distance_le_max (s t : str) :
  (distance s t <= Nat.max (length s) (length t))%nat.
Proof.
  revert t. induction s as [|a s IH]; intros t.
  - simpl. unfold distance. lia.
  - destruct t as [|b t]; [simpl; unfold distance; simpl; lia|].
    rewrite distance_cons_cons. specialize (IH t). simpl length.
    destruct (a =? b)%N; lia.
Qed.

Lemma agrees_upto_correct (bound d m : nat) :
  agrees_upto bound = true ->
  (1 <= m <= bound)%nat -> (d <= m)%nat -> agrees d m = true.
Proof.
  unfold agrees_upto. rewrite forallb_forall. intros H Hm Hd.
  specialize (H m ltac:(apply in_seq; lia)).
  rewrite forallb_forall in H. apply H, in_seq. lia.
Qed.

Lemma agrees_upto_200 : agrees_upto 200 = true.
Proof. vm_compute. reflexivity. Qed.

(** Up to 200 characters, the binary64 comparison of line 95 decides as the
    comparison over the rationals: the event is emitted exactly when the
    distance exceeds a tenth of the longer length. *)
Lemma below_threshold_short (current last : str) :
  current <> [] ->
  (Nat.max (length current) (length last) <= 200)%nat ->
  below_threshold current last = below_threshold_exact current last.
Proof.
  intros Hne Hshort.
  pose proof (distance_le_max current last) as Hd.
  assert (Hm : (1 <= Nat.max (length current) (length last))%nat)
    by (destruct current; [congruence | simpl length; lia]).
  pose proof (agrees_upto_correct 200 _ _ agrees_upto_200 (conj Hm Hshort) Hd)
    as Hagree.
  unfold agrees in Hagree. apply eqb_prop in Hagree.
  unfold below_threshold, below_threshold_exact, len.
  rewrite <- Nat2Z.inj_max. exact Hagree.
Qed.

End Threshold.

(* ===================================================================== *)
(** * The novelty decision                                                *)
(* ===================================================================== *)

Section Novelty.

Lemma len_cons_pos (c : char) (s : str) : 0 < len (c :: s).
Proof. unfold len; simpl length; lia. Qed.

Lemma max_len_pos (current last : str) :
  current <> [] -> last <> [] -> 1 <= max_len current last.
Proof.
  intros Hc Hl. unfold max_len.
  destruct current as [|c current]; [congruence|].
  pose proof (len_cons_pos c current). lia.
Qed.

(** The decision of lines 87-96, case by case. *)
Lemma is_new_subtitle_cases (current last : str) :
  is_new_subtitle current last
  = Ok (match current, last with
        | [], _ => false
        | _ :: _, [] => true
        | _ :: _, _ :: _ => below_threshold current last
        end).
Proof.
  destruct current as [|c current]; [reflexivity|].
  destruct last as [|l last]; [reflexivity|].
  unfold is_new_subtitle. cbn [truthy negb].
  pose proof (max_len_pos (c :: current) (l :: last)
                ltac:(discriminate) ltac:(discriminate)) as Hpos.
  destruct (Z.ltb_spec 0 (max_len (c :: current) (l :: last))) as [_|]; [|lia].
  unfold similarity, truediv_int.
  destruct (Z.eqb_spec (max_len (c :: current) (l :: last)) 0) as [|_]; [lia|].
  run. unfold below_threshold, max_len.
  destruct (fltb _ _); reflexivity.
Qed.

(** The branch taken tells the outcome. *)
Lemma path_of_sound (current last : str) :
  is_new_subtitle current last
  = match path_of current last with
    | CurrentEmpty => Ok false
    | LastEmpty => Ok true
    | GuardFalse => Ok false
    | Compared divisor =>
        ratio ← truediv_int (Z.of_nat (distance current last)) divisor;
        if fltb (fsub f_1_0 ratio) f_0_9 then Ok true else Ok false
    end.
Proof.
  unfold is_new_subtitle, path_of, similarity.
  destruct (truthy current); [|reflexivity].
  destruct (negb (truthy last)); [reflexivity|].
  destruct (0 <? max_len current last); [|reflexivity].
  destruct (truediv_int _ _); reflexivity.
Qed.

Lemma snoc_neq_self {A} (l : list A) (x : A) : l ++ [x] <> l.
Proof.
  intros H. apply (f_equal length) in H.
  rewrite length_app in H. simpl in H. lia.
Qed.

Context {image : Type}.
Variable lower_half : image -> image.
Variable image_to_data : image -> result ocr_data.
Variable encode_jpg : image -> str.

(** C1.  On a sampled frame whose OCR result yields the text block
    [current], the detector: emits nothing and keeps [last_text_block]
    when [current] is empty; emits an event when [current] is non-empty
    and [last_text_block] is empty; when both are non-empty, emits an
    event exactly when [1 - distance / max(len, len) < 0.9]; and whenever
    it emits, [last_text_block] becomes [current].  The event carries the
    frame's timestamp, its encoding and [current].  The comparison is the
    binary64 one of line 95; for blocks of at most 200 characters it
    decides as the comparison of the exact quotient does. *)
Theorem telop_novelty_decision (d : detector) (timestamp : float)
    (frame : image) (data : ocr_data) (current : str) :
  image_to_data (lower_half frame) = Ok data ->
  current_text_block data = Ok current ->
  let ev := {| shot_timestamp := timestamp;
               shot_image_str := encode_jpg frame;
               shot_text := current |} in
  exists d',
    detect lower_half image_to_data encode_jpg d timestamp frame = Ok d' /\
    (emits d d' ev \/ d' = d) /\
    (current = [] -> silent d d' /\ last_text_block d' = last_text_block d) /\
    (current <> [] -> last_text_block d = [] -> emits d d' ev) /\
    (current <> [] -> last_text_block d <> [] ->
       (emits d d' ev <-> below_threshold current (last_text_block d) = true)) /\
    (emits d d' ev -> last_text_block d' = current) /\
    (current <> [] ->
     (Nat.max (length current) (length (last_text_block d)) <= 200)%nat ->
     below_threshold current (last_text_block d)
     = below_threshold_exact current (last_text_block d)).
Proof.
  intros Hocr Hcur ev. unfold detect.
  rewrite Hocr; run. rewrite Hcur; run.
  rewrite is_new_subtitle_cases; run.
  assert (Hstay : ~ emits d d ev) by (unfold emits; intros H; symmetry in H;
                                      exact (snoc_neq_self _ _ H)).
  pose proof (below_threshold_short current (last_text_block d)) as Hexact.
  destruct current as [|c current].
  - exists d. repeat split; try tauto; try congruence.
  - destruct (last_text_block d) as [|l last] eqn:Hlast.
    + eexists; split; [reflexivity|]. unfold emits; simpl.
      repeat split; auto; try congruence.
    + destruct (below_threshold (c :: current) (l :: last)) eqn:Hb.
      * eexists; split; [reflexivity|]. unfold emits; simpl.
        repeat split; auto; try congruence.
      * exists d. repeat split; auto; try congruence; try tauto.
Qed.

End Novelty.

(* ===================================================================== *)
(** * The division of line 94                                             *)
(* ===================================================================== *)

Section DivisionSafety.

(** C10.  Whatever the two text blocks are, the division of line 94 is
    reached only with both blocks non-empty and then divides by at least
    1; the guard [max_len > 0] of line 93 never fails; and the decision
    never raises ZeroDivisionError (it returns a boolean). *)
Theorem similarity_division_safe (current last : str) :
  (forall divisor, path_of current last = Compared divisor ->
     current <> [] /\ last <> [] /\
     divisor = Z.max (len current) (len last) /\ 1 <= divisor) /\
  path_of current last <> GuardFalse /\
  (current <> [] -> last <> [] ->
     (0 <? max_len current last) = true /\
     exists sim, similarity current last = Ok sim) /\
  (exists new, is_new_subtitle current last = Ok new).
Proof.
  split; [|split; [|split]].
  - intros divisor H. unfold path_of in H.
    destruct current as [|c current]; [discriminate|].
    destruct last as [|l last]; [discriminate|]. cbn [truthy negb] in H.
    destruct (0 <? _); [|discriminate]. injection H as <-.
    repeat split; try discriminate.
    apply max_len_pos; discriminate.
  - unfold path_of. destruct current as [|c current]; [discriminate|].
    destruct last as [|l last]; [discriminate|]. cbn [truthy negb].
    pose proof (max_len_pos (c :: current) (l :: last)
                  ltac:(discriminate) ltac:(discriminate)).
    destruct (Z.ltb_spec 0 (max_len (c :: current) (l :: last)));
      [discriminate | lia].
  - intros Hc Hl. pose proof (max_len_pos current last Hc Hl) as Hpos. split.
    + apply Z.ltb_lt. lia.
    + unfold similarity, truediv_int.
      destruct (Z.eqb_spec (max_len current last) 0); [lia|].
      run. eauto.
  - rewrite is_new_subtitle_cases. eauto.
Qed.

End DivisionSafety.

(* ===================================================================== *)
(** * Frame sampling                                                      *)
(* ===================================================================== *)

Section Sampling.

Context {image : Type}.

Lemma is_sampled_divide (period : Z) (i : nat) :
  period <> 0 -> is_sampled period i = true <-> (period | Z.of_nat i).
Proof.
  intros Hp. unfold is_sampled. rewrite Z.eqb_eq. apply Z.mod_divide, Hp.
Qed.

(** One turn of the loop at a frame rate whose ceiling is [period]. *)
Lemma frame_step_at {St : Type} (on_sample : St -> float -> image -> result St)
    (fps : float) (period : Z) (s : St) (i : nat) (frame : image) :
  ceil fps = Ok period -> period <> 0 -> is_zero fps = false ->
  frame_step on_sample fps (s, Z.of_nat i) frame
  = (s' ← (if is_sampled period i
           then on_sample s (fdiv (float_of_int (Z.of_nat i)) fps) frame
           else Ok s);
     Ok (s', Z.of_nat (S i))).
Proof.
  intros Hceil Hp Hz. unfold frame_step, mod_int, truediv_int_float, is_sampled.
  rewrite Hceil; run.
  destruct (Z.eqb_spec period 0); [contradiction|]. run. rewrite Hz.
  replace (Z.of_nat i + 1) with (Z.of_nat (S i)) by lia.
  destruct (Z.of_nat i mod period =? 0); reflexivity.
Qed.

Lemma frame_loop_from {St : Type} (on_sample : St -> float -> image -> result St)
    (fps : float) (period : Z) :
  ceil fps = Ok period -> period <> 0 -> is_zero fps = false ->
  forall (frames : list image) (start : nat) (s : St),
    foldM (frame_step on_sample fps) frames (s, Z.of_nat start)
    = (s' ← foldM (on_pair on_sample)
              (List.map (fun p => (fdiv (float_of_int (Z.of_nat p.1)) fps, p.2))
                 (List.filter (fun p => is_sampled period p.1)
                    (zip (seq start (length frames)) frames))) s;
       Ok (s', Z.of_nat (start + length frames))).
Proof.
  intros Hceil Hp Hz. induction frames as [|frame frames IH]; intros start s.
  - simpl. rewrite Nat.add_0_r. reflexivity.
  - cbn [foldM length seq zip zip_with List.filter fst].
    rewrite (frame_step_at on_sample fps period) by assumption.
    replace (start + S (length frames))%nat
      with (S start + length frames)%nat by lia.
    destruct (is_sampled period start).
    + cbn [List.map foldM fst snd].
      change (on_pair on_sample s
                (fdiv (float_of_int (Z.of_nat start)) fps, frame))
        with (on_sample s (fdiv (float_of_int (Z.of_nat start)) fps) frame).
      destruct (on_sample s _ frame) as [s1|e]; run; [apply IH | reflexivity].
    + run. apply IH.
Qed.

(** C8.  At a finite frame rate [fps > 0], with [period = ceil(fps)]
    (which is at least 1): the loop hands to the per-sample code exactly
    the frames whose index is a multiple of [period], in order, each with
    the timestamp [index / fps]; it raises nothing of its own; and it
    ends when the source is exhausted, having counted every frame. *)
Theorem frame_sampling (fps : float) :
  positive_float fps = true ->
  exists (q : Q) (period : Z),
    value fps = Some q /\ period = Qceiling q /\ 1 <= period /\
    (forall i : nat, is_sampled period i = true <-> (period | Z.of_nat i)) /\
    forall (St : Type) (on_sample : St -> float -> image -> result St)
           (frames : list image) (s : St),
      frame_loop on_sample fps frames s
      = (s' ← foldM (on_pair on_sample) (samples fps period frames) s;
         Ok (s', Z.of_nat (length frames))).
Proof.
  intros Hpos.
  destruct (ceil_positive fps Hpos) as (q & Hv & Hq & Hceil & Hge).
  exists q, (Qceiling q). repeat split; try assumption.
  - apply is_sampled_divide; lia.
  - apply is_sampled_divide; lia.
  - intros St on_sample frames s. unfold frame_loop, samples.
    apply (frame_loop_from on_sample fps (Qceiling q) Hceil ltac:(lia)
             (positive_float_nonzero fps Hpos) frames 0%nat s).
Qed.

End Sampling.

(** The sample sequence of a 5-frame source at 2.5 fps: frames 0 and 3,
    at the timestamps 0 and 1.2. *)
Lemma frame_sampling_witness :
  positive_float (decimal 25 1) = true /\
  frame_loop (fun (acc : list (float * nat)) ts fr => Ok (acc ++ [(ts, fr)]))
             (decimal 25 1) [10; 11; 12; 13; 14]%nat []
  = Ok ([(S754_zero false, 10%nat); (decimal 12 1, 13%nat)], 5).
Proof.
  split; [reflexivity|].
  destruct (frame_sampling (image := nat) (decimal 25 1) eq_refl)
    as (q & period & Hv & -> & _ & _ & Hloop).
  rewrite Hloop. injection Hv as <-. reflexivity.
Defined.

(* ===================================================================== *)
(** * OCR failures and cleanup                                            *)
(* ===================================================================== *)

Section Failures.

Context {image : Type}.
Variable extract_info : ydl_opts -> str -> files -> result info_dict * files.
Variable transcribe : str -> files -> result (list segment) * files.
Variable video_capture : str -> files -> capture (image := image).
Variable lower_half : image -> image.
Variable image_to_data : image -> result ocr_data.
Variable encode_jpg : image -> str.

Lemma frame_step_sampled {St : Type}
    (on_sample : St -> float -> image -> result St)
    (fps : float) (period : Z) (s : St) (n : Z) (frame : image) :
  ceil fps = Ok period -> period <> 0 -> n mod period = 0 ->
  is_zero fps = false ->
  frame_step on_sample fps (s, n) frame
  = (s' ← on_sample s (fdiv (float_of_int n) fps) frame; Ok (s', n + 1)).
Proof.
  intros Hceil Hp Hmod Hz. unfold frame_step, mod_int, truediv_int_float.
  rewrite Hceil; run. destruct (Z.eqb_spec period 0); [contradiction|]. run.
  rewrite Hmod, Hz. reflexivity.
Qed.

(** The frame loop stops at the first sampled frame on which the OCR
    engine raises. *)
Lemma telop_loop_raises (fps : float) (period : Z)
    (pre post : list image) (frame : image) (d : detector) (n : Z) (e : exn) :
  frame_loop (detect lower_half image_to_data encode_jpg) fps pre detector_init
    = Ok (d, n) ->
  ceil fps = Ok period -> period <> 0 -> n mod period = 0 ->
  is_zero fps = false ->
  image_to_data (lower_half frame) = Raise e ->
  telop_loop lower_half image_to_data encode_jpg fps (pre ++ frame :: post)
    = Raise e.
Proof.
  intros Hpre Hceil Hp Hmod Hz Hocr. unfold telop_loop, frame_loop in *.
  rewrite foldM_app, Hpre; run. cbn [foldM].
  rewrite (frame_step_sampled _ fps period) by assumption.
  unfold detect. rewrite Hocr. reflexivity.
Qed.

(** C6, amended.  An OCR failure on a sampled frame is fatal: when the
    frames before it were processed and the frame is a sampled one, the
    exception of the OCR engine leaves the frame loop, whatever frames
    follow, so that no later frame is examined; and a run of
    [process_video] that reaches this frame raises the exception instead
    of returning a result, after its [finally] clause has run. *)
Theorem ocr_failure_aborts (fps : float) (period : Z)
    (pre post : list image) (frame : image) (d : detector) (n : Z) (e : exn) :
  frame_loop (detect lower_half image_to_data encode_jpg) fps pre detector_init
    = Ok (d, n) ->
  ceil fps = Ok period -> period <> 0 -> n mod period = 0 ->
  is_zero fps = false ->
  image_to_data (lower_half frame) = Raise e ->
  telop_loop lower_half image_to_data encode_jpg fps (pre ++ frame :: post)
    = Raise e /\
  forall (url : str) (w w1 w2 : files) (info : info_dict)
         (segments : list segment),
    extract_info (make_opts w) url w = (Ok info, w1) ->
    transcribe (prepare_filename info) w1 = (Ok segments, w2) ->
    cap_fps (video_capture (prepare_filename info) w2) = fps ->
    frames_read (video_capture (prepare_filename info) w2)
      = pre ++ frame :: post ->
    process_video extract_info transcribe video_capture lower_half
      image_to_data encode_jpg url w
    = (Raise e, cleanup (Some (prepare_filename info)) w2).
Proof.
  intros Hpre Hceil Hp Hmod Hz Hocr.
  pose proof (telop_loop_raises fps period pre post frame d n e
                Hpre Hceil Hp Hmod Hz Hocr) as Hloop.
  split; [exact Hloop|].
  intros url w w1 w2 info segments Hdl Htr Hfps Hframes.
  unfold process_video, try_body.
  rewrite Hdl, Htr, Hfps, Hframes, Hloop. reflexivity.
Qed.

End Failures.

Lemma ocr_failure_aborts_witness :
  frame_loop (detect no_crop ocr_fails_on_1 encode_name) (float_of_int 1)
    [0%nat] detector_init
  = Ok ({| telop_screenshots :=
             [{| shot_timestamp := S754_zero false;
                 shot_image_str := lit "jpg"; shot_text := lit "HELLO" |}];
           last_text_block := lit "HELLO" |}, 1) /\
  ceil (float_of_int 1) = Ok 1 /\ 1 <> 0 /\ 1 mod 1 = 0 /\
  is_zero (float_of_int 1) = false /\
  ocr_fails_on_1 (no_crop 1%nat) = Raise OcrFailure /\
  telop_loop no_crop ocr_fails_on_1 encode_name (float_of_int 1) three_frames
  = Raise OcrFailure.
Proof.
  do 2 (split; [reflexivity|]). split; [discriminate|].
  do 3 (split; [reflexivity|]).
  exact (proj1 (ocr_failure_aborts download_mp4 transcribe_one capture_three
                  no_crop ocr_fails_on_1 encode_name
                  (float_of_int 1) 1 [0%nat] [2%nat] 1%nat _ 1 OcrFailure
                  eq_refl eq_refl ltac:(discriminate) eq_refl eq_refl eq_refl)).
Defined.

(** At a frame rate of zero, which OpenCV reports for a source without
    one, the first turn of the loop raises at line 72. *)
Example frame_loop_zero_fps :
  telop_loop no_crop ocr_fails_on_1 encode_name (S754_zero false) three_frames
  = Raise ZeroDivisionError.
Proof. reflexivity. Qed.

(** C6 as worded fails: on the three-frame source whose second frame makes
    the OCR engine fail, the loop raises, while a loop that skipped the
    frame would have gone on to the third. *)
Lemma ocr_failure_counterexample : ~ ocr_failure_skips_frame.
Proof.
  intros H.
  specialize (H nat no_crop ocr_fails_on_1 encode_name (float_of_int 1)
                three_frames).
  vm_compute in H. discriminate H.
Qed.

Lemma ocr_failure_counterexample_run :
  telop_loop no_crop ocr_fails_on_1 encode_name (float_of_int 1) three_frames
  = Raise OcrFailure /\
  telop_loop no_crop (swallowing ocr_fails_on_1) encode_name (float_of_int 1)
    three_frames
  = Ok ({| telop_screenshots :=
             [{| shot_timestamp := S754_zero false;
                 shot_image_str := lit "jpg"; shot_text := lit "HELLO" |}];
           last_text_block := lit "HELLO" |}, 3).
Proof. split; reflexivity. Qed.

Section Cleanup.

Context {image : Type}.
Variable extract_info : ydl_opts -> str -> files -> result info_dict * files.
Variable transcribe : str -> files -> result (list segment) * files.
Variable video_capture : str -> files -> capture (image := image).
Variable lower_half : image -> image.
Variable image_to_data : image -> result ocr_data.
Variable encode_jpg : image -> str.

Lemma cleanup_removes (p : str) (w : files) :
  truthy p = true -> path_exists p (cleanup (Some p) w) = false.
Proof.
  intros Hp. unfold cleanup. rewrite Hp. cbn [andb].
  destruct (path_exists p w) eqn:He; [|exact He].
  unfold path_exists, remove. rewrite lookup_delete_eq. reflexivity.
Qed.

Lemma prepare_filename_truthy (info : info_dict) :
  truthy (prepare_filename info) = true.
Proof. reflexivity. Qed.

(** C7.  In a run whose download succeeded, the path of the downloaded
    file does not exist once [process_video] is left, whether it returns
    its result or a later stage (transcription, frame decoding, OCR)
    raised. *)
Theorem temp_file_removed (url : str) (w w1 : files) (info : info_dict) :
  extract_info (make_opts w) url w = (Ok info, w1) ->
  path_exists (prepare_filename info)
    (process_video extract_info transcribe video_capture lower_half
       image_to_data encode_jpg url w).2 = false.
Proof.
  intros Hdl. unfold process_video, try_body. rewrite Hdl.
  destruct (transcribe (prepare_filename info) w1) as [[segments|e] w2].
  - destruct (telop_loop _ _ _ _ _) as [[d n]|e]; cbn [snd];
      apply cleanup_removes, prepare_filename_truthy.
  - cbn [snd]. apply cleanup_removes, prepare_filename_truthy.
Qed.

End Cleanup.

(** A run that fails in the frame loop, after a successful download. *)
Lemma temp_file_removed_witness :
  download_mp4 (make_opts ∅) watch_url ∅
  = (Ok mp4, <[prepare_filename mp4 := 1000]> ∅) /\
  (process_video download_mp4 transcribe_one capture_three no_crop
     ocr_fails_on_1 encode_name watch_url ∅).1 = Raise OcrFailure /\
  path_exists (prepare_filename mp4)
    (process_video download_mp4 transcribe_one capture_three no_crop
       ocr_fails_on_1 encode_name watch_url ∅).2 = false.
Proof.
  split; [reflexivity|]. split; [reflexivity|].
  exact (temp_file_removed download_mp4 transcribe_one capture_three no_crop
           ocr_fails_on_1 encode_name watch_url ∅ _ mp4 eq_refl).
Defined.

(* ===================================================================== *)
(** * Event fusion                                                        *)
(* ===================================================================== *)

Section Grouping.

Lemma filter_snoc {A} (f : A -> bool) (l : list A) (x : A) :
  List.filter f (l ++ [x]) = List.filter f l ++ if f x then [x] else [].
Proof. rewrite List.filter_app. reflexivity. Qed.

Lemma existsb_snoc {A} (f : A -> bool) (l : list A) (x : A) :
  existsb f (l ++ [x]) = existsb f l || f x.
Proof. rewrite existsb_app. simpl. rewrite orb_false_r. reflexivity. Qed.

Lemma filter_none {A} (f g : A -> bool) (l : list A) :
  existsb g l = false -> List.filter (fun x => f x && g x) l = [].
Proof.
  induction l as [|x l IH]; simpl; [reflexivity|].
  intros [Hx Hl]%orb_false_elim. rewrite Hx, andb_false_r. auto.
Qed.

Lemma group_of_none (evs : list event) (k : Z) :
  existsb (in_bucket k) evs = false -> group_of evs k = empty_group.
Proof.
  intros H. unfold group_of, empty_group.
  rewrite !filter_none by assumption. reflexivity.
Qed.

Lemma in_bucket_key (e : event) (k k' : Z) :
  time_key e = Ok k -> in_bucket k' e = (k =? k').
Proof. intros H. unfold in_bucket. rewrite H. reflexivity. Qed.

Lemma group_of_snoc_same (evs : list event) (e : event) (k : Z) :
  time_key e = Ok k ->
  group_of (evs ++ [e]) k = append_to e (group_of evs k).
Proof.
  intros Hk. unfold group_of, append_to, is_voice, is_telop.
  rewrite !filter_snoc, (in_bucket_key e k k Hk), Z.eqb_refl.
  destruct (ev_type e); simpl; rewrite ?app_nil_r; reflexivity.
Qed.

Lemma group_of_snoc_other (evs : list event) (e : event) (k k' : Z) :
  time_key e = Ok k -> k <> k' ->
  group_of (evs ++ [e]) k' = group_of evs k'.
Proof.
  intros Hk Hne. unfold group_of.
  rewrite !filter_snoc, (in_bucket_key e k k' Hk).
  destruct (Z.eqb_spec k k'); [contradiction|].
  rewrite !andb_false_r, !app_nil_r. reflexivity.
Qed.

(** What [grouped_events] holds under each key: the events of that key,
    split by stream, each stream in input order; no entry for a key
    without events. *)
Lemma grouped_events_lookup (evs : list event) (grouped : gmap Z group) :
  grouped_events evs = Ok grouped ->
  forall k, grouped !! k
            = if existsb (in_bucket k) evs then Some (group_of evs k) else None.
Proof.
  unfold grouped_events. revert grouped.
  induction evs as [|e evs IH] using rev_ind; intros grouped.
  - intros [= <-] k. apply lookup_empty.
  - rewrite foldM_snoc. intros (g0 & Hg0 & Hadd)%bind_ok.
    unfold add_event in Hadd. apply bind_ok in Hadd as (ke & Hke & Hadd).
    injection Hadd as <-. intros k. specialize (IH g0 Hg0).
    rewrite existsb_snoc, (in_bucket_key e ke k Hke).
    destruct (Z.eqb_spec ke k) as [<-|Hne].
    + rewrite orb_true_r, lookup_alter_eq, (group_of_snoc_same _ _ _ Hke).
      rewrite (IH ke).
      destruct (existsb (in_bucket ke) evs) eqn:Hex.
      * rewrite IH, Hex. reflexivity.
      * rewrite lookup_insert_eq, group_of_none by assumption. reflexivity.
    + rewrite orb_false_r, lookup_alter_ne by assumption.
      rewrite (group_of_snoc_other _ _ _ _ Hke Hne).
      destruct (g0 !! ke); [|rewrite lookup_insert_ne by assumption]; apply IH.
Qed.

Lemma grouped_events_keys (evs : list event) (grouped : gmap Z group) :
  grouped_events evs = Ok grouped ->
  Forall (fun e => exists k, time_key e = Ok k) evs.
Proof.
  unfold grouped_events. revert grouped.
  induction evs as [|e evs IH] using rev_ind; intros grouped; [constructor|].
  rewrite foldM_snoc. intros (g0 & Hg0 & Hadd)%bind_ok.
  unfold add_event in Hadd. apply bind_ok in Hadd as (ke & Hke & _).
  apply Forall_app. split; [eauto | constructor; eauto].
Qed.

Lemma add_event_total (g0 : gmap Z group) (e : event) (k : Z) :
  time_key e = Ok k -> exists grouped, add_event g0 e = Ok grouped.
Proof. intros Hk. unfold add_event. rewrite Hk; run. eauto. Qed.

Lemma foldM_add_event_total (evs : list event) :
  Forall (fun e => exists k, time_key e = Ok k) evs ->
  forall g0, exists grouped, foldM add_event evs g0 = Ok grouped.
Proof.
  induction 1 as [|e evs [k Hk] _ IH]; intros g0; simpl; [eauto|].
  destruct (add_event_total g0 e k Hk) as [g1 ->]; run. apply IH.
Qed.

End Grouping.

Section Rendering.

Lemma jump_url_value (youtube_url : str) (k : Z) :
  jump_url youtube_url k
  = Ok (base_url youtube_url ++ lit "&t=" ++ str_of_int k ++ lit "s").
Proof.
  unfold jump_url, base_url.
  destruct (split_head 38%N youtube_url) as [rest ->]. reflexivity.
Qed.

Lemma render_row_for (youtube_url : str) (grouped : gmap Z group) (k : Z) :
  is_Some (grouped !! k) ->
  render_row youtube_url grouped k = Ok (row_for youtube_url grouped k).
Proof.
  intros [g Hg]. unfold render_row, row_for.
  rewrite Hg, jump_url_value. reflexivity.
Qed.

Lemma render_step_for (youtube_url : str) (grouped : gmap Z group)
    (acc : list row) (k : Z) :
  is_Some (grouped !! k) ->
  render_step youtube_url grouped acc k
  = Ok (acc ++ [row_for youtube_url grouped k]).
Proof.
  intros Hk. unfold render_step. rewrite render_row_for by assumption.
  reflexivity.
Qed.

Lemma render_rows (youtube_url : str) (grouped : gmap Z group) (keys : list Z) :
  Forall (fun k => is_Some (grouped !! k)) keys ->
  forall acc, foldM (render_step youtube_url grouped) keys acc
              = Ok (acc ++ List.map (row_for youtube_url grouped) keys).
Proof.
  induction 1 as [|k keys Hk _ IH]; intros acc; simpl.
  - rewrite app_nil_r. reflexivity.
  - rewrite render_step_for by assumption; run.
    rewrite IH, <- app_assoc. reflexivity.
Qed.

Lemma elem_of_sorted_timestamps (grouped : gmap Z group) (k : Z) :
  k ∈ sorted_timestamps grouped <-> is_Some (grouped !! k).
Proof.
  unfold sorted_timestamps. rewrite merge_sort_Permutation.
  rewrite list_elem_of_fmap. split.
  - intros ([k' g] & -> & Hin). apply elem_of_map_to_list in Hin. eauto.
  - intros [g Hg]. exists (k, g). split; [reflexivity|].
    apply elem_of_map_to_list. exact Hg.
Qed.

Lemma NoDup_sorted_timestamps (grouped : gmap Z group) :
  NoDup (sorted_timestamps grouped).
Proof.
  unfold sorted_timestamps. rewrite merge_sort_Permutation.
  apply NoDup_fst_map_to_list.
Qed.

Lemma strictly_sorted (l : list Z) :
  StronglySorted Z.le l -> NoDup l -> StronglySorted Z.lt l.
Proof.
  induction 1 as [|x l Hl IH Hx]; intros Hnd; constructor.
  - apply IH. now apply NoDup_cons in Hnd.
  - apply NoDup_cons in Hnd as [Hnotin _].
    rewrite Forall_forall in *. intros y Hy.
    specialize (Hx y Hy). assert (x <> y) by (intros ->; contradiction). lia.
Qed.

Lemma sorted_timestamps_ascending (grouped : gmap Z group) :
  StronglySorted Z.lt (sorted_timestamps grouped).
Proof.
  apply strictly_sorted; [|apply NoDup_sorted_timestamps].
  unfold sorted_timestamps. apply StronglySorted_merge_sort; typeclasses eauto.
Qed.

(** The rows of [fuse]: one per key of [grouped_events], in the order of
    [sorted_timestamps]. *)
Lemma fuse_rows (youtube_url : str) (voice_data : list voice)
    (shots : list shot) (rows : list row) :
  fuse youtube_url voice_data shots = Ok rows <->
  exists grouped,
    grouped_events (all_events voice_data shots) = Ok grouped /\
    rows = List.map (row_for youtube_url grouped) (sorted_timestamps grouped).
Proof.
  unfold fuse. split.
  - intros (grouped & Hg & Hrows)%bind_ok. exists grouped. split; [exact Hg|].
    rewrite render_rows in Hrows; [now injection Hrows as <-|].
    apply Forall_forall. intros k. apply elem_of_sorted_timestamps.
  - intros (grouped & -> & ->). run. rewrite render_rows; [reflexivity|].
    apply Forall_forall. intros k. apply elem_of_sorted_timestamps.
Qed.

Lemma row_keys (youtube_url : str) (grouped : gmap Z group) (keys : list Z) :
  List.map row_key (List.map (row_for youtube_url grouped) keys) = keys.
Proof. rewrite List.map_map. apply List.map_id. Qed.

End Rendering.

Section Partition.

Lemma time_key_floor (e : event) :
  nonneg (ev_timestamp e) = true ->
  exists k, time_key e = Ok k /\ floor_of (ev_timestamp e) = Some k.
Proof.
  intros Hnn. destruct (int_of_float_floor _ Hnn) as (q & Hv & _ & Hint).
  exists (Qfloor q). unfold time_key, floor_of. rewrite Hv. auto.
Qed.

Lemma elem_of_filter_bool {A} (f : A -> bool) (l : list A) (x : A) :
  x ∈ List.filter f l <-> x ∈ l /\ f x = true.
Proof. rewrite !list_elem_of_In. apply List.filter_In. Qed.

Lemma elem_of_members_group_of (evs : list event) (k : Z) (e : event) :
  e ∈ members (group_of evs k) <-> e ∈ evs /\ in_bucket k e = true.
Proof.
  unfold members, group_of; simpl.
  rewrite elem_of_app, !elem_of_filter_bool. unfold is_voice, is_telop.
  destruct (ev_type e), (in_bucket k e); simpl; intuition congruence.
Qed.

Lemma members_group_of_perm (evs : list event) (k : Z) :
  members (group_of evs k) ≡ₚ List.filter (in_bucket k) evs.
Proof.
  unfold members, group_of; simpl.
  induction evs as [|e evs IH]; simpl; [reflexivity|].
  unfold is_voice at 1, is_telop at 1.
  destruct (ev_type e), (in_bucket k e); simpl; try exact IH.
  - now constructor.
  - rewrite <- Permutation_middle. now constructor.
Qed.

Lemma concat_map_perm {A B} (f g : A -> list B) (l : list A) :
  (forall a, f a ≡ₚ g a) -> concat (List.map f l) ≡ₚ concat (List.map g l).
Proof.
  intros Hfg. induction l as [|a l IH]; simpl; [reflexivity|].
  now rewrite Hfg, IH.
Qed.

Lemma concat_map_app {A B} (f g : A -> list B) (l : list A) :
  concat (List.map (fun a => f a ++ g a) l)
  ≡ₚ concat (List.map f l) ++ concat (List.map g l).
Proof.
  induction l as [|a l IH]; simpl; [reflexivity|].
  rewrite IH, <- !app_assoc. apply Permutation_app_head.
  rewrite !app_assoc. apply Permutation_app_tail, Permutation_app_comm.
Qed.

Lemma concat_map_single (keys : list Z) (k : Z) (e : event) :
  NoDup keys -> k ∈ keys ->
  concat (List.map (fun k' => if k =? k' then [e] else []) keys) = [e].
Proof.
  induction 1 as [|k0 keys Hnotin Hnd IH]; intros Hin.
  - now apply elem_of_nil in Hin.
  - simpl. destruct (Z.eqb_spec k k0) as [->|Hne].
    + simpl. f_equal. clear IH Hin Hnd.
      induction keys as [|k1 keys IH]; simpl; [reflexivity|].
      apply not_elem_of_cons in Hnotin as [Hne Hnotin].
      destruct (Z.eqb_spec k0 k1); [contradiction | auto].
    + apply elem_of_cons in Hin as [|Hin]; [contradiction | auto].
Qed.

(** The events of the keys [keys], bucket after bucket, are the events. *)
Lemma buckets_partition (keys : list Z) (evs : list event) :
  NoDup keys ->
  Forall (fun e => exists k, time_key e = Ok k /\ k ∈ keys) evs ->
  concat (List.map (fun k => List.filter (in_bucket k) evs) keys) ≡ₚ evs.
Proof.
  intros Hnd. induction 1 as [|e evs (k & Hk & Hin) _ IH]; simpl.
  - clear Hnd. induction keys as [|k keys IH]; simpl; [reflexivity | exact IH].
  - rewrite (concat_map_perm _
               (fun k' => (if k =? k' then [e] else [])
                          ++ List.filter (in_bucket k') evs)).
    + rewrite concat_map_app, concat_map_single, IH by assumption. reflexivity.
    + intros k'. rewrite (in_bucket_key e k k' Hk).
      destruct (k =? k'); reflexivity.
Qed.

End Partition.

Section FusionTheorems.

Lemma row_group_for (youtube_url : str) (evs : list event)
    (grouped : gmap Z group) (k : Z) :
  grouped_events evs = Ok grouped -> k ∈ sorted_timestamps grouped ->
  row_group (row_for youtube_url grouped k) = group_of evs k /\
  existsb (in_bucket k) evs = true.
Proof.
  intros Hg [g Hk]%elem_of_sorted_timestamps. unfold row_for; simpl.
  rewrite (grouped_events_lookup evs grouped Hg k) in *.
  destruct (existsb (in_bucket k) evs); [auto | discriminate].
Qed.

Lemma key_of_event_sorted (evs : list event) (grouped : gmap Z group)
    (e : event) (k : Z) :
  grouped_events evs = Ok grouped -> e ∈ evs -> time_key e = Ok k ->
  k ∈ sorted_timestamps grouped.
Proof.
  intros Hg Hin Hk. apply elem_of_sorted_timestamps.
  rewrite (grouped_events_lookup evs grouped Hg k).
  replace (existsb (in_bucket k) evs) with true; [eauto|].
  symmetry. apply existsb_exists. exists e. split.
  - now apply list_elem_of_In.
  - rewrite (in_bucket_key e k k Hk). apply Z.eqb_refl.
Qed.

(** C3.  For voice segments and telop events with finite timestamps that
    are not below zero, fusion succeeds and its rows partition the events:
    every event lies in a row whose key is the floor of its timestamp and
    in no other row, every member of a row is an input event, no two rows
    share a key, and the rows taken together hold the input events, each
    as often as the input does. *)
Theorem fusion_partitions (youtube_url : str) (voice_data : list voice)
    (shots : list shot) :
  Forall (fun e => nonneg (ev_timestamp e) = true)
         (all_events voice_data shots) ->
  exists rows,
    fuse youtube_url voice_data shots = Ok rows /\
    (forall e, e ∈ all_events voice_data shots ->
       exists r, r ∈ rows /\ e ∈ members (row_group r) /\
                 floor_of (ev_timestamp e) = Some (row_key r) /\
                 forall r', r' ∈ rows -> e ∈ members (row_group r') -> r' = r) /\
    (forall r e, r ∈ rows -> e ∈ members (row_group r) ->
                 e ∈ all_events voice_data shots) /\
    NoDup (List.map row_key rows) /\
    concat (List.map (fun r => members (row_group r)) rows)
      ≡ₚ all_events voice_data shots.
Proof.
  intros Hnn. set (evs := all_events voice_data shots) in *.
  assert (Hkeys : Forall (fun e => exists k, time_key e = Ok k) evs).
  { eapply Forall_impl; [exact Hnn|]. intros e He.
    destruct (time_key_floor e He) as (k & Hk & _). eauto. }
  destruct (foldM_add_event_total evs Hkeys ∅) as [grouped Hg].
  change (grouped_events evs = Ok grouped) in Hg.
  exists (List.map (row_for youtube_url grouped) (sorted_timestamps grouped)).
  split; [apply fuse_rows; eauto|].
  assert (Hmem : forall k e, k ∈ sorted_timestamps grouped ->
            (e ∈ members (row_group (row_for youtube_url grouped k))
             <-> e ∈ evs /\ in_bucket k e = true)).
  { intros k e Hk.
    destruct (row_group_for youtube_url evs grouped k Hg Hk) as [-> _].
    apply elem_of_members_group_of. }
  split; [|split; [|split]].
  - intros e He. rewrite Forall_forall in Hnn.
    destruct (time_key_floor e (Hnn e He)) as (k & Hk & Hfloor).
    pose proof (key_of_event_sorted evs grouped e k Hg He Hk) as Hin.
    exists (row_for youtube_url grouped k). repeat split.
    + apply list_elem_of_fmap. eauto.
    + apply Hmem; [assumption|]. split; [assumption|].
      rewrite (in_bucket_key e k k Hk). apply Z.eqb_refl.
    + exact Hfloor.
    + intros r' (k' & -> & Hk')%list_elem_of_fmap Hr'.
      apply Hmem in Hr' as [_ Hb]; [|assumption].
      rewrite (in_bucket_key e k k' Hk) in Hb. apply Z.eqb_eq in Hb.
      now subst k'.
  - intros r e (k & -> & Hk)%list_elem_of_fmap He.
    now apply Hmem in He as [He _].
  - rewrite row_keys. apply NoDup_sorted_timestamps.
  - rewrite List.map_map.
    rewrite (concat_map_perm _ (fun k => List.filter (in_bucket k) evs)).
    + apply buckets_partition; [apply NoDup_sorted_timestamps|].
      apply Forall_forall. intros e He. rewrite Forall_forall in Hkeys.
      destruct (Hkeys e He) as [k Hk]. exists k. split; [assumption|].
      exact (key_of_event_sorted evs grouped e k Hg He Hk).
    + intros k. simpl.
      rewrite (grouped_events_lookup evs grouped Hg k).
      destruct (existsb (in_bucket k) evs) eqn:Hex; simpl.
      * apply members_group_of_perm.
      * rewrite <- (members_group_of_perm evs k), group_of_none by assumption.
        reflexivity.
Qed.

(** C4.  The rows of a fused result come in strictly ascending order of
    their keys, so that no key occurs twice. *)
Theorem buckets_strictly_ascending (youtube_url : str)
    (voice_data : list voice) (shots : list shot) (rows : list row) :
  fuse youtube_url voice_data shots = Ok rows ->
  StronglySorted Z.lt (List.map row_key rows) /\
  NoDup (List.map row_key rows) /\
  exists grouped,
    grouped_events (all_events voice_data shots) = Ok grouped /\
    List.map row_key rows = sorted_timestamps grouped.
Proof.
  intros (grouped & Hg & ->)%fuse_rows. rewrite row_keys.
  split; [apply sorted_timestamps_ascending|].
  split; [apply NoDup_sorted_timestamps | eauto].
Qed.

Lemma filter_map_agree {A B} (f g : B -> bool) (h : A -> B) (l : list A) :
  (forall a, f (h a) = g (h a)) ->
  List.filter f (List.map h l) = List.filter g (List.map h l).
Proof.
  intros Hfg. induction l as [|a l IH]; simpl; [reflexivity|].
  rewrite Hfg, IH. reflexivity.
Qed.

Lemma filter_map_never {A B} (f : B -> bool) (h : A -> B) (l : list A) :
  (forall a, f (h a) = false) -> List.filter f (List.map h l) = [].
Proof.
  intros Hf. induction l as [|a l IH]; simpl; [reflexivity|].
  rewrite Hf. exact IH.
Qed.

Lemma group_of_streams (k : Z) (voice_data : list voice) (shots : list shot) :
  group_of (all_events voice_data shots) k
  = {| g_voice := List.filter (in_bucket k) (List.map event_of_voice voice_data);
       g_telop := List.filter (in_bucket k) (List.map event_of_shot shots) |}.
Proof.
  unfold group_of, all_events. rewrite !List.filter_app. f_equal.
  - rewrite (filter_map_never _ event_of_shot) by reflexivity.
    rewrite app_nil_r. now apply filter_map_agree.
  - rewrite (filter_map_never _ event_of_voice) by reflexivity.
    now apply filter_map_agree.
Qed.

(** C5.  In every row of a fused result the voice list is the sequence of
    the voice segments of that key in transcript order, and the telop list
    the sequence of the telop events of that key in detection order; no
    list holds an event of the other stream.  In particular a voice
    segment at 12.3 s and a telop event at 12.9 s make up one row, of key
    12, with the segment in its voice list and the event in its telop
    list. *)
Theorem stream_order_preserved :
  (forall (youtube_url : str) (voice_data : list voice) (shots : list shot)
          (rows : list row),
     fuse youtube_url voice_data shots = Ok rows ->
     forall r, r ∈ rows ->
       g_voice (row_group r)
       = List.filter (in_bucket (row_key r))
           (List.map event_of_voice voice_data) /\
       g_telop (row_group r)
       = List.filter (in_bucket (row_key r))
           (List.map event_of_shot shots) /\
       Forall (fun e => ev_type e = Voice) (g_voice (row_group r)) /\
       Forall (fun e => ev_type e = TelopShot) (g_telop (row_group r))) /\
  (forall youtube_url : str,
     exists url,
       fuse youtube_url [voice_12_3] [shot_12_9]
       = Ok [{| row_key := 12;
                row_group := {| g_voice := [event_of_voice voice_12_3];
                                g_telop := [event_of_shot shot_12_9] |};
                row_jump_url := url |}]).
Proof.
  split.
  - intros youtube_url voice_data shots rows (grouped & Hg & ->)%fuse_rows r
           (k & -> & Hk)%list_elem_of_fmap.
    destruct (row_group_for youtube_url _ grouped k Hg Hk) as [Hgrp _].
    rewrite Hgrp, group_of_streams. cbn [g_voice g_telop row_key row_for].
    repeat split; try reflexivity.
    + apply Forall_forall. intros e [He _]%elem_of_filter_bool.
      apply list_elem_of_fmap in He as (v & -> & _). reflexivity.
    + apply Forall_forall. intros e [He _]%elem_of_filter_bool.
      apply list_elem_of_fmap in He as (v & -> & _). reflexivity.
  - intros youtube_url. eexists. apply fuse_rows.
    exists {[ 12 := group_12 ]}. split; reflexivity.
Qed.

Lemma stream_order_preserved_witness :
  fuse watch_url [voice_12_3] [shot_12_9] = Ok [row_12] /\
  g_voice (row_group row_12)
  = List.filter (in_bucket (row_key row_12))
      (List.map event_of_voice [voice_12_3]).
Proof.
  split; [reflexivity|].
  exact (proj1 (proj1 stream_order_preserved watch_url [voice_12_3]
                  [shot_12_9] [row_12] eq_refl row_12
                  (list_elem_of_here row_12 []))).
Defined.

Lemma fusion_partitions_witness :
  Forall (fun e => nonneg (ev_timestamp e) = true)
         (all_events [voice_12_3] [shot_12_9]) /\
  exists rows, fuse watch_url [voice_12_3] [shot_12_9] = Ok rows /\
               NoDup (List.map row_key rows).
Proof.
  assert (H : Forall (fun e => nonneg (ev_timestamp e) = true)
                (all_events [voice_12_3] [shot_12_9]))
    by (repeat constructor).
  split; [exact H|].
  destruct (fusion_partitions watch_url [voice_12_3] [shot_12_9] H)
    as (rows & Hrows & _ & _ & Hnd & _).
  exists rows. split; assumption.
Defined.

Lemma buckets_strictly_ascending_witness :
  fuse watch_url [voice_70_5; voice_5_25] [shot_5_75] = Ok rows_5_70 /\
  List.map row_key rows_5_70 = [5; 70] /\
  StronglySorted Z.lt (List.map row_key rows_5_70) /\
  NoDup (List.map row_key rows_5_70).
Proof.
  split; [reflexivity|]. split; [reflexivity|].
  destruct (buckets_strictly_ascending watch_url [voice_70_5; voice_5_25]
              [shot_5_75] rows_5_70 eq_refl) as (Hsorted & Hnodup & _).
  split; [exact Hsorted | exact Hnodup].
Defined.

(** C9.  The time anchor of the key [k] is the request URL cut before its
    first ampersand (the whole URL when it has none), followed by [&t=],
    the decimal digits of [k] and [s]. *)
Theorem jump_url_format (youtube_url : str) (k : Z) :
  jump_url youtube_url k
  = Ok (base_url youtube_url ++ lit "&t=" ++ str_of_int k ++ lit "s") /\
  exists tail,
    youtube_url = base_url youtube_url ++ tail /\
    (38%N ∉ base_url youtube_url) /\
    (tail = [] \/ exists tail', tail = 38%N :: tail').
Proof.
  split; [apply jump_url_value | apply before_spec].
Qed.

End FusionTheorems.

(* ===================================================================== *)
(** * The scenarios of the specification                                  *)
(* ===================================================================== *)

Section Scenarios.

(** Scenario A: nothing seen before, "HELLO" on screen. *)
Lemma telop_novelty_decision_witness :
  ocr_fails_on_1 (no_crop 0%nat) = Ok ocr_hello /\
  current_text_block ocr_hello = Ok (lit "HELLO") /\
  detect no_crop ocr_fails_on_1 encode_name detector_init (S754_zero false)
    0%nat
  = Ok {| telop_screenshots :=
            [{| shot_timestamp := S754_zero false;
                shot_image_str := lit "jpg"; shot_text := lit "HELLO" |}];
          last_text_block := lit "HELLO" |}.
Proof.
  do 2 (split; [reflexivity|]).
  destruct (telop_novelty_decision no_crop ocr_fails_on_1 encode_name
              detector_init (S754_zero false) 0%nat ocr_hello (lit "HELLO")
              eq_refl eq_refl)
    as (d' & Hrun & _ & _ & Hemit & _ & Hlast & _).
  rewrite Hrun. f_equal.
  specialize (Hemit ltac:(discriminate) eq_refl). specialize (Hlast Hemit).
  destruct d' as [shots last]. unfold emits in Hemit. simpl in *.
  rewrite Hemit, Hlast. reflexivity.
Defined.

(** Scenario B: one character appended to an 11-character caption. *)
Example scenario_near_duplicate :
  distance (lit "HELLO WORLD!") (lit "HELLO WORLD") = 1%nat /\
  similarity (lit "HELLO WORLD!") (lit "HELLO WORLD")
  = Ok (fsub f_1_0 (fdiv (float_of_int 1) (float_of_int 12))) /\
  is_new_subtitle (lit "HELLO WORLD!") (lit "HELLO WORLD") = Ok false.
Proof. repeat split. Qed.

(** Scenario C: a different caption. *)
Example scenario_new_caption :
  distance (lit "GOODBYE") (lit "HELLO") = 7%nat /\
  similarity (lit "GOODBYE") (lit "HELLO") = Ok (S754_zero false) /\
  is_new_subtitle (lit "GOODBYE") (lit "HELLO") = Ok true.
Proof. repeat split. Qed.

(** One edit in ten characters sits on the threshold: similarity 0.9 is
    not below 0.9. *)
Example scenario_on_threshold :
  similarity (lit "0123456789") (lit "012345678X") = Ok f_0_9 /\
  is_new_subtitle (lit "0123456789") (lit "012345678X") = Ok false.
Proof. repeat split. Qed.

Lemma similarity_division_safe_witness :
  path_of (lit "GOODBYE") (lit "HELLO") = Compared 7 /\ 1 <= 7.
Proof.
  split; [reflexivity|].
  exact (proj2 (proj2 (proj2
           (proj1 (similarity_division_safe (lit "GOODBYE") (lit "HELLO"))
              7 eq_refl)))).
Defined.

Example jump_url_watch :
  jump_url watch_url 12 = Ok (lit "https://www.youtube.com/watch?v=abc&t=12s").
Proof. reflexivity. Qed.

Example str_of_int_values :
  str_of_int 0 = lit "0" /\ str_of_int 3725 = lit "3725" /\
  str_of_int (-1) = lit "-1".
Proof. repeat split. Qed.

End Scenarios.

(* ===================================================================== *)
(** * White space and edit distance                                       *)
(* ===================================================================== *)

Section StripFacts.

Lemma lstrip_head (s : str) (c : char) (rest : str) :
  lstrip s = c :: rest -> isspace c = false.
Proof.
  induction s as [|a s IH]; simpl; [discriminate|].
  destruct (isspace a) eqn:Ha; [exact IH|]. now intros [= <- _].
Qed.

Lemma lstrip_split (s : str) :
  exists blanks, s = blanks ++ lstrip s.
Proof.
  induction s as [|a s [blanks IH]]; simpl; [now exists []|].
  destruct (isspace a); [|now exists []].
  exists (a :: blanks). simpl. now f_equal.
Qed.

Lemma lstrip_fixed (s : str) :
  (forall c rest, s = c :: rest -> isspace c = false) -> lstrip s = s.
Proof.
  destruct s as [|a s]; [reflexivity|]. intros H. simpl.
  now rewrite (H a s eq_refl).
Qed.

Lemma strip_trimmed (s : str) : trimmed (strip s).
Proof.
  unfold strip, rstrip. split.
  - intros c rest Hc.
    destruct (lstrip_split (rev (lstrip s))) as [blanks Hb].
    apply (f_equal (@rev char)) in Hb.
    rewrite rev_involutive, rev_app_distr, Hc in Hb. simpl in Hb.
    exact (lstrip_head s c _ Hb).
  - intros c front Hc. apply (f_equal (@rev char)) in Hc.
    rewrite rev_involutive, rev_app_distr in Hc. simpl in Hc.
    exact (lstrip_head _ c _ Hc).
Qed.

Lemma trimmed_strip (s : str) : trimmed s -> strip s = s.
Proof.
  intros [Hhead Hlast]. unfold strip, rstrip.
  rewrite (lstrip_fixed s Hhead), lstrip_fixed; [apply rev_involutive|].
  intros c rest Hc. apply (Hlast c (rev rest)).
  rewrite <- (rev_involutive s), Hc. reflexivity.
Qed.

Lemma strip_idempotent (s : str) : strip (strip s) = strip s.
Proof. apply trimmed_strip, strip_trimmed. Qed.

Lemma trimmed_nil : trimmed [].
Proof.
  split; intros c l H; [discriminate|]. now destruct l.
Qed.

(** Joining non-empty trimmed parts gives a trimmed string. *)
Lemma trimmed_concat (parts : list str) :
  Forall (fun p => p <> [] /\ trimmed p) parts -> trimmed (concat parts).
Proof.
  intros Hparts. split.
  - intros c rest Hc. destruct Hparts as [|p ps [Hne [Hhead _]] _];
      [discriminate|].
    destruct p as [|a p]; [congruence|]. simpl in Hc. injection Hc as -> _.
    exact (Hhead c p eq_refl).
  - intros c front Hc.
    destruct parts as [|p0 ps0] using rev_ind; [now destruct front|].
    apply Forall_app in Hparts as [_ Hp]. inversion_clear Hp as [|? ? [Hne [_ Hlast]] _].
    rewrite concat_app in Hc. simpl in Hc. rewrite app_nil_r in Hc.
    destruct p0 as [|a p] using rev_ind; [congruence|].
    rewrite app_assoc in Hc. apply app_inj_tail in Hc as [_ ->].
    exact (Hlast c p eq_refl).
Qed.

End StripFacts.

Section DistanceFacts.

Lemma distance_nil_l (t : str) : distance [] t = length t.
Proof. reflexivity. Qed.

Lemma distance_nil_r (s : str) : distance s [] = length s.
Proof. destruct s; reflexivity. Qed.

Lemma distance_same (s : str) : distance s s = 0%nat.
Proof.
  induction s as [|a s IH]; [reflexivity|].
  rewrite distance_cons_cons, N.eqb_refl. exact IH.
Qed.

Lemma distance_zero (s t : str) : distance s t = 0%nat -> s = t.
Proof.
  revert t. induction s as [|a s IH]; intros [|b t].
  - reflexivity.
  - rewrite distance_nil_l. discriminate.
  - rewrite distance_nil_r. discriminate.
  - rewrite distance_cons_cons. destruct (N.eqb_spec a b) as [->|_];
      [|discriminate].
    intros H. now rewrite (IH t H).
Qed.

(** A block is never below the threshold against itself: the quotient
    [0 / m] is zero (or undefined), never above a tenth. *)
Lemma below_threshold_same (s : str) : below_threshold s s = false.
Proof.
  unfold below_threshold. rewrite distance_same.
  change (float_of_int (Z.of_nat 0)) with (S754_zero false).
  destruct (float_of_int (Z.max (len s) (len s))) as [[]|[]| |[] m e];
    reflexivity.
Qed.

End DistanceFacts.

(* ===================================================================== *)
(** * The detector over a run of frames                                   *)
(* ===================================================================== *)

Section DetectorRuns.

Context {image : Type}.
Variable lower_half : image -> image.
Variable image_to_data : image -> result ocr_data.
Variable encode_jpg : image -> str.

Local Abbreviation detect' := (detect lower_half image_to_data encode_jpg).

(** What [detect] can return: the state it was given, or that state with
    one more screenshot, for a block that passes the novelty test. *)
Lemma detect_cases (d d' : detector) (timestamp : float) (frame : image) :
  detect' d timestamp frame = Ok d' ->
  d' = d \/
  exists current,
    reads lower_half image_to_data frame current /\
    novel_after (last_text_block d) current /\
    d' = {| telop_screenshots :=
              telop_screenshots d ++
              [{| shot_timestamp := timestamp;
                  shot_image_str := encode_jpg frame;
                  shot_text := current |}];
            last_text_block := current |}.
Proof.
  unfold detect. intros (data & Hocr & H)%bind_ok.
  apply bind_ok in H as (current & Hcur & H).
  apply bind_ok in H as (new & Hnew & H).
  rewrite is_new_subtitle_cases in Hnew. injection Hnew as <-.
  destruct current as [|c current]; [injection H as <-; now left|].
  destruct (last_text_block d) as [|l last] eqn:Hlast.
  - injection H as <-. right. exists (c :: current).
    repeat split; eauto; try discriminate. exists data. auto.
  - destruct (below_threshold (c :: current) (l :: last)) eqn:Hb.
    + injection H as <-. right. exists (c :: current).
      repeat split; eauto; try discriminate. exists data. auto.
    + injection H as <-. now left.
Qed.

Lemma detect_repeat (d : detector) (timestamp : float) (frame : image)
    (current : str) :
  reads lower_half image_to_data frame current ->
  current = [] \/ current = last_text_block d ->
  detect' d timestamp frame = Ok d.
Proof.
  intros (data & Hocr & Hcur) Hsame. unfold detect.
  rewrite Hocr; run. rewrite Hcur; run. rewrite is_new_subtitle_cases; run.
  destruct Hsame as [->| ->]; [reflexivity|].
  destruct (last_text_block d) as [|l last]; [reflexivity|].
  rewrite below_threshold_same. reflexivity.
Qed.

(** One turn of the loop, for any frame count. *)
Lemma frame_step_cases {St : Type}
    (on_sample : St -> float -> image -> result St)
    (fps : float) (period : Z) (s : St) (n : Z) (frame : image) :
  ceil fps = Ok period -> period <> 0 -> is_zero fps = false ->
  frame_step on_sample fps (s, n) frame
  = (s' ← (if n mod period =? 0
           then on_sample s (fdiv (float_of_int n) fps) frame
           else Ok s);
     Ok (s', n + 1)).
Proof.
  intros Hceil Hp Hz. unfold frame_step, mod_int, truediv_int_float.
  rewrite Hceil; run. destruct (Z.eqb_spec period 0); [contradiction|]. run.
  rewrite Hz. reflexivity.
Qed.

(** What a successful turn of the loop does to the detector. *)
Lemma frame_step_detect (fps : float) (d d' : detector) (n n' : Z)
    (frame : image) :
  frame_step detect' fps (d, n) frame = Ok (d', n') ->
  n' = n + 1 /\
  (d' = d \/ exists timestamp, detect' d timestamp frame = Ok d').
Proof.
  unfold frame_step. intros (period & _ & H)%bind_ok.
  apply bind_ok in H as (r & _ & H). apply bind_ok in H as (s' & Hs & H).
  injection H as <- <-. split; [reflexivity|].
  destruct (r =? 0); [|injection Hs as <-; now left].
  apply bind_ok in Hs as (timestamp & _ & Hs). eauto.
Qed.

(** What a successful turn of the loop with the progress report does. *)
Lemma frame_step_reporting_ok (report : Z -> result unit) (fps : float)
    (d d' : detector) (n n' : Z) (frame : image) :
  frame_step_reporting lower_half image_to_data encode_jpg report fps
    (d, n) frame = Ok (d', n') ->
  n' = n + 1 /\
  (d' = d \/
   exists period timestamp,
     ceil fps = Ok period /\ n mod period = 0 /\
     detect' d timestamp frame = Ok d').
Proof.
  unfold frame_step_reporting. intros (period & Hceil & H)%bind_ok.
  apply bind_ok in H as (r & Hr & H). apply bind_ok in H as (s' & Hs & H).
  injection H as <- <-. split; [reflexivity|].
  unfold mod_int in Hr. destruct (period =? 0); [discriminate|].
  injection Hr as <-.
  destruct (Z.eqb_spec (n mod period) 0) as [Hmod|_];
    [|injection Hs as <-; now left].
  apply bind_ok in Hs as (timestamp & _ & Hs).
  apply bind_ok in Hs as (d1 & Hdet & Hs).
  apply bind_ok in Hs as (u & _ & [= <-]). right. eauto.
Qed.

(** A run of the loop with the progress report that ends normally ends
    as the run without it. *)
Lemma reporting_loop_ok (report : Z -> result unit) (fps : float)
    (frames : list image) :
  forall (st st' : detector * Z),
    foldM (frame_step_reporting lower_half image_to_data encode_jpg report fps)
      frames st = Ok st' ->
    foldM (frame_step detect' fps) frames st = Ok st'.
Proof.
  induction frames as [|frame frames IH]; intros st st'; simpl; [auto|].
  intros (st1 & Hstep & Hrest)%bind_ok.
  assert (Hplain : frame_step detect' fps st frame = Ok st1).
  { destruct st as [d n]. unfold frame_step_reporting in Hstep.
    unfold frame_step.
    destruct (ceil fps) as [period|]; [|discriminate]. simpl in *.
    destruct (mod_int n period) as [r|]; [|discriminate]. simpl in *.
    destruct (r =? 0); [|exact Hstep].
    destruct (truediv_int_float n fps) as [timestamp|]; [|discriminate].
    simpl in *.
    destruct (detect' d timestamp frame) as [d1|]; [|discriminate].
    simpl in *. destruct (report n); [exact Hstep | discriminate]. }
  rewrite Hplain. simpl. exact (IH st1 st' Hrest).
Qed.

(** X1.  While the sampled frames show the caption captured last, or no
    text at all, a run of the loop that ends normally has added no
    screenshot and kept [last_text_block], whatever the other frames hold
    and whatever the progress report does: a caption that stays on
    screen, or comes back after frames without text, is captured once. *)
Theorem held_caption_adds_nothing (report : Z -> result unit) (fps : float)
    (frames : list image) (d d' : detector) (n n' : Z) :
  (forall (i : nat) (frame : image) (period : Z),
     ceil fps = Ok period -> frames !! i = Some frame ->
     (n + Z.of_nat i) mod period = 0 ->
     exists current,
       reads lower_half image_to_data frame current /\
       (current = [] \/ current = last_text_block d)) ->
  foldM (frame_step_reporting lower_half image_to_data encode_jpg report fps)
    frames (d, n) = Ok (d', n') ->
  d' = d /\ n' = n + Z.of_nat (length frames).
Proof.
  revert n. induction frames as [|frame frames IH]; intros n Hheld; simpl.
  - intros [= <- <-]. split; [reflexivity | lia].
  - intros ([d1 n1] & Hstep & Hrest)%bind_ok.
    apply frame_step_reporting_ok in Hstep as [-> Hd1].
    assert (d1 = d) as ->.
    { destruct Hd1 as [->|(period & timestamp & Hceil & Hmod & Hdet)];
        [reflexivity|].
      destruct (Hheld 0%nat frame period Hceil eq_refl) as (current & Hr & Hc);
        [rewrite Z.add_0_r; exact Hmod|].
      rewrite (detect_repeat d timestamp frame current Hr Hc) in Hdet.
      now injection Hdet. }
    destruct (IH (n + 1)) as [-> ->]; [|exact Hrest|split; [reflexivity|lia]].
    intros i fr period Hceil Hfr Hmod.
    apply (Hheld (S i) fr period Hceil Hfr).
    replace (n + Z.of_nat (S i)) with (n + 1 + Z.of_nat i) by lia. exact Hmod.
Qed.

Lemma last_text_snoc (prev : str) (shots : list shot) (s : shot) :
  last_text prev (shots ++ [s]) = shot_text s.
Proof.
  unfold last_text. rewrite List.map_app. simpl. apply last_last.
Qed.

Lemma last_text_cons (prev : str) (s : shot) (shots : list shot) :
  last_text prev (s :: shots) = last_text (shot_text s) shots.
Proof.
  revert prev s. induction shots as [|s0 shots IH]; intros prev s;
    [reflexivity|].
  change (last_text prev (s :: s0 :: shots)) with (last_text prev (s0 :: shots)).
  now rewrite !IH.
Qed.

Lemma chained_snoc (prev : str) (shots : list shot) (s : shot) :
  chained prev (shots ++ [s])
  <-> chained prev shots /\ novel_after (last_text prev shots) (shot_text s).
Proof.
  revert prev. induction shots as [|s0 shots IH]; intros prev; simpl.
  - unfold last_text; simpl. tauto.
  - rewrite IH, last_text_cons. tauto.
Qed.

Lemma detect_consistent (d d' : detector) (timestamp : float) (frame : image) :
  detect' d timestamp frame = Ok d' -> consistent d -> consistent d'.
Proof.
  intros [->|(current & _ & Hnovel & ->)]%detect_cases [Hch Hlast]; [now split|].
  split; simpl.
  - apply chained_snoc. split; [assumption|]. simpl. now rewrite <- Hlast.
  - now rewrite last_text_snoc.
Qed.

Lemma frame_loop_consistent (fps : float) (frames : list image) :
  forall (d d' : detector) (n n' : Z),
    foldM (frame_step detect' fps) frames (d, n) = Ok (d', n') ->
    consistent d -> consistent d'.
Proof.
  induction frames as [|frame frames IH]; intros d d' n n'; simpl.
  - now intros [= <- _].
  - intros ([d1 n1] & Hstep & Hrest)%bind_ok Hd.
    apply (IH d1 d' n1 n' Hrest).
    apply frame_step_detect in Hstep as [_ [->|[timestamp Hdet]]];
      [assumption|].
    exact (detect_consistent d d1 timestamp frame Hdet Hd).
Qed.

Lemma chained_nonempty (prev : str) (shots : list shot) :
  chained prev shots -> Forall (fun s => shot_text s <> []) shots.
Proof.
  revert prev. induction shots as [|s shots IH]; intros prev; simpl;
    [constructor|].
  intros [[Hne _] Hrest]. constructor; eauto.
Qed.

Lemma chained_adjacent (prev : str) (shots : list shot) (i : nat)
    (s1 s2 : shot) :
  chained prev shots -> shots !! i = Some s1 -> shots !! S i = Some s2 ->
  novel_after (shot_text s1) (shot_text s2).
Proof.
  revert prev i. induction shots as [|s shots IH]; intros prev i; simpl;
    [discriminate|].
  intros [_ Hrest]. destruct i as [|i]; simpl.
  - intros [= <-] H2. destruct shots as [|s' shots]; [discriminate|].
    injection H2 as <-. exact (proj1 Hrest).
  - apply (IH _ i Hrest).
Qed.

(** X2.  When the loop ends normally, every screenshot carries a
    non-empty text, and [last_text_block] is the text of the last
    screenshot (empty only if there is none). *)
Theorem screenshots_have_text (fps : float) (frames : list image)
    (d : detector) (n : Z) :
  telop_loop lower_half image_to_data encode_jpg fps frames = Ok (d, n) ->
  Forall (fun s => shot_text s <> []) (telop_screenshots d) /\
  last_text_block d = last_text [] (telop_screenshots d) /\
  (last_text_block d = [] <-> telop_screenshots d = []).
Proof.
  intros Hloop.
  destruct (frame_loop_consistent fps frames detector_init d 0 n Hloop)
    as [Hch Hlast]; [split; [exact I | reflexivity]|].
  pose proof (chained_nonempty _ _ Hch) as Hne.
  split; [exact Hne|]. split; [exact Hlast|]. rewrite Hlast.
  destruct (telop_screenshots d) as [|s shots _] using rev_ind; [tauto|].
  rewrite last_text_snoc. apply Forall_app in Hne as [_ Hs].
  inversion_clear Hs as [|? ? Hs' _]. split; [contradiction|].
  intros Hnil. now destruct shots.
Qed.

(** X3.  Two screenshots in a row never carry the same text: the later
    text passed the threshold test against the earlier one. *)
Theorem consecutive_screenshots_differ (fps : float) (frames : list image)
    (d : detector) (n : Z) (i : nat) (s1 s2 : shot) :
  telop_loop lower_half image_to_data encode_jpg fps frames = Ok (d, n) ->
  telop_screenshots d !! i = Some s1 ->
  telop_screenshots d !! S i = Some s2 ->
  below_threshold (shot_text s2) (shot_text s1) = true /\
  shot_text s2 <> shot_text s1.
Proof.
  intros Hloop H1 H2.
  destruct (frame_loop_consistent fps frames detector_init d 0 n Hloop)
    as [Hch _]; [split; [exact I | reflexivity]|].
  pose proof (chained_nonempty _ _ Hch) as Hne.
  destruct (chained_adjacent _ _ i s1 s2 Hch H1 H2) as [_ [Hempty|Hb]].
  - rewrite Forall_forall in Hne.
    apply list_elem_of_lookup_2 in H1. now apply Hne in H1.
  - split; [exact Hb|]. intros Heq. rewrite Heq, below_threshold_same in Hb.
    discriminate.
Qed.

End DetectorRuns.

Section DetectorInputs.

Context {image : Type}.
Variable lower_half : image -> image.
Variable encode_jpg : image -> str.

Lemma frame_loop_agree
    (image_to_data image_to_data' : image -> result ocr_data)
    (fps : float) (frames : list image) :
  forall (start : nat) (d : detector),
    (forall (i : nat) (frame : image) (period : Z),
       ceil fps = Ok period -> frames !! i = Some frame ->
       Z.of_nat (start + i) mod period = 0 ->
       image_to_data (lower_half frame) = image_to_data' (lower_half frame)) ->
    foldM (frame_step (detect lower_half image_to_data encode_jpg) fps)
      frames (d, Z.of_nat start)
    = foldM (frame_step (detect lower_half image_to_data' encode_jpg) fps)
        frames (d, Z.of_nat start).
Proof.
  induction frames as [|frame frames IH]; intros start d Hagree;
    [reflexivity|].
  cbn [foldM].
  assert (Hstep :
            frame_step (detect lower_half image_to_data encode_jpg) fps
              (d, Z.of_nat start) frame
            = frame_step (detect lower_half image_to_data' encode_jpg) fps
                (d, Z.of_nat start) frame).
  { unfold frame_step. destruct (ceil fps) as [period|e] eqn:Hceil;
      [run | reflexivity].
    unfold mod_int. destruct (period =? 0); [reflexivity | run].
    destruct (Z.eqb_spec (Z.of_nat start mod period) 0) as [Hmod|_];
      [|reflexivity].
    destruct (truediv_int_float _ _) as [timestamp|e]; [run | reflexivity].
    unfold detect.
    rewrite (Hagree 0%nat frame period eq_refl eq_refl); [reflexivity|].
    rewrite Nat.add_0_r. exact Hmod. }
  rewrite Hstep. clear Hstep.
  destruct (frame_step (detect lower_half image_to_data' encode_jpg) fps
              (d, Z.of_nat start) frame) as [[d1 n1]|e] eqn:Hs;
    [run | reflexivity].
  assert (n1 = Z.of_nat (S start)) as ->.
  { apply frame_step_detect in Hs as [-> _]. lia. }
  apply IH. intros i fr period Hceil Hfr Hmod.
  apply (Hagree (S i) fr period Hceil Hfr).
  replace (Z.of_nat (start + S i)) with (Z.of_nat (S start + i)) by lia.
  exact Hmod.
Qed.

(** X4.  The OCR engine is consulted on sampled frames only: two engines
    that agree on the lower half of every frame whose index is a multiple
    of [ceil(fps)] give the same run of the loop, whatever either does on
    the other frames. *)
Theorem ocr_only_on_sampled_frames
    (image_to_data image_to_data' : image -> result ocr_data)
    (fps : float) (frames : list image) :
  (forall (i : nat) (frame : image) (period : Z),
     ceil fps = Ok period -> frames !! i = Some frame ->
     Z.of_nat i mod period = 0 ->
     image_to_data (lower_half frame) = image_to_data' (lower_half frame)) ->
  telop_loop lower_half image_to_data encode_jpg fps frames
  = telop_loop lower_half image_to_data' encode_jpg fps frames.
Proof.
  intros Hagree.
  exact (frame_loop_agree image_to_data image_to_data' fps frames 0%nat
           detector_init Hagree).
Qed.

End DetectorInputs.

Section ScreenshotOrigins.

Context {image : Type}.
Variable lower_half : image -> image.
Variable image_to_data : image -> result ocr_data.
Variable encode_jpg : image -> str.

Lemma fold_detect_sublist (l : list (float * image)) :
  forall d d' : detector,
    foldM (on_pair (detect lower_half image_to_data encode_jpg)) l d = Ok d' ->
    exists sub,
      sublist sub (List.map (sample_origin encode_jpg) l) /\
      List.map shot_origin (telop_screenshots d')
      = List.map shot_origin (telop_screenshots d) ++ sub.
Proof.
  induction l as [|p l IH]; intros d d'; simpl.
  - intros [= <-]. exists []. split; [constructor | now rewrite app_nil_r].
  - intros (d1 & Hdet & Hrest)%bind_ok.
    destruct (IH d1 d' Hrest) as (sub & Hsub & Heq).
    unfold on_pair in Hdet.
    apply detect_cases in Hdet as [->|(current & _ & _ & ->)].
    + exists sub. split; [now apply sublist_cons | exact Heq].
    + exists (sample_origin encode_jpg p :: sub).
      split; [now apply sublist_skip|].
      rewrite Heq. simpl. rewrite List.map_app, <- app_assoc. reflexivity.
Qed.

Lemma length_samples (fps : float) (period : Z) (frames : list image) :
  (length (samples fps period frames) <= length frames)%nat.
Proof.
  unfold samples. rewrite length_map.
  etransitivity; [apply List.filter_length_le|].
  rewrite length_zip_with, length_seq. lia.
Qed.

(** X5.  At a finite frame rate above zero, the screenshots of a run that
    ends normally are taken from the sampled frames, in frame order: their
    timestamps and encoded images form a subsequence of those of the
    sampled frames.  There are thus no more screenshots than frames. *)
Theorem screenshots_from_samples (fps : float) (frames : list image)
    (d : detector) (n : Z) :
  positive_float fps = true ->
  telop_loop lower_half image_to_data encode_jpg fps frames = Ok (d, n) ->
  exists period,
    ceil fps = Ok period /\
    sublist (List.map shot_origin (telop_screenshots d))
            (List.map (sample_origin encode_jpg) (samples fps period frames)) /\
    (length (telop_screenshots d) <= length frames)%nat.
Proof.
  intros Hpos Hloop.
  destruct (ceil_positive fps Hpos) as (q & _ & _ & Hceil & Hge).
  exists (Qceiling q). split; [exact Hceil|].
  unfold telop_loop, frame_loop in Hloop.
  change 0 with (Z.of_nat 0) in Hloop.
  rewrite (frame_loop_from _ fps (Qceiling q) Hceil ltac:(lia)
             (positive_float_nonzero fps Hpos)) in Hloop.
  apply bind_ok in Hloop as (d1 & Hfold & [= -> _]).
  destruct (fold_detect_sublist _ _ _ Hfold) as (sub & Hsub & Heq).
  simpl in Heq. subst sub.
  assert (Hs : sublist (List.map shot_origin (telop_screenshots d))
                 (List.map (sample_origin encode_jpg)
                    (samples fps (Qceiling q) frames))) by exact Hsub.
  split; [exact Hs|].
  apply sublist_length in Hs. rewrite !length_map in Hs.
  pose proof (length_samples fps (Qceiling q) frames). lia.
Qed.

End ScreenshotOrigins.

Section TextBlock.

Lemma collect_part_ok (data : ocr_data) (acc : list str) (i : nat) :
  (i < length (ocr_text data))%nat -> (i < length (ocr_conf data))%nat ->
  exists acc', collect_part data acc i = Ok acc'.
Proof.
  intros Ht Hc. unfold collect_part, index.
  destruct (nth_error (ocr_conf data) i) as [conf|] eqn:Hconf;
    [|apply nth_error_None in Hconf; lia].
  run. destruct (60 <? conf); [|eauto].
  destruct (nth_error (ocr_text data) i) as [raw|] eqn:Hraw;
    [|apply nth_error_None in Hraw; lia].
  run. destruct (truthy (strip raw)); eauto.
Qed.

Lemma collect_prefix_ok (data : ocr_data) (k : nat) :
  (k <= length (ocr_text data))%nat -> (k <= length (ocr_conf data))%nat ->
  exists parts, foldM (collect_part data) (seq 0 k) [] = Ok parts.
Proof.
  induction k as [|k IH]; intros Ht Hc; [simpl; eauto|].
  destruct IH as [parts Hparts]; [lia | lia |].
  rewrite seq_S, foldM_snoc, Hparts; run.
  apply collect_part_ok; simpl; lia.
Qed.

Lemma collect_part_raises (data : ocr_data) (acc : list str) (i : nat) :
  (length (ocr_conf data) <= i)%nat ->
  collect_part data acc i = Raise IndexError.
Proof.
  intros Hi. unfold collect_part, index.
  replace (nth_error (ocr_conf data) i) with (@None Z)
    by (symmetry; apply nth_error_None; lia).
  reflexivity.
Qed.

(** X6.  When the OCR result has fewer confidences than texts, building
    the text block raises [IndexError] at the first text without a
    confidence. *)
Theorem short_conf_column_raises (data : ocr_data) :
  (length (ocr_conf data) < length (ocr_text data))%nat ->
  current_text_block data = Raise IndexError.
Proof.
  intros Hshort. unfold current_text_block.
  replace (length (ocr_text data))
    with (length (ocr_conf data)
          + S (length (ocr_text data) - S (length (ocr_conf data))))%nat
    by lia.
  rewrite seq_app, foldM_app.
  destruct (collect_prefix_ok data (length (ocr_conf data))) as [parts ->];
    [lia | lia |].
  run. cbn [seq foldM]. rewrite collect_part_raises by lia. reflexivity.
Qed.

Lemma parts_of_trimmed (ts : list str) (cs : list Z) :
  Forall (fun p => p <> [] /\ trimmed p) (parts_of ts cs).
Proof.
  revert cs. induction ts as [|t ts IH]; intros [|c cs]; simpl;
    try constructor.
  destruct (60 <? c); [|apply IH].
  destruct (strip t) eqn:Hs; simpl; [apply IH|].
  constructor; [|apply IH]. split; [discriminate|].
  rewrite <- Hs. apply strip_trimmed.
Qed.

Lemma concat_nil_iff {A} (l : list (list A)) :
  concat l = [] <-> Forall (fun x => x = []) l.
Proof.
  induction l as [|x l IH]; simpl.
  - split; [constructor | reflexivity].
  - rewrite Forall_cons, <- IH. split.
    + intros [-> ->]%app_eq_nil. auto.
    + intros [-> ->]. reflexivity.
Qed.

(** X7.  With columns of equal length, the text block never starts or
    ends with white space, and it is empty exactly when every token of
    confidence above 60 is blank. *)
Theorem text_block_trimmed (data : ocr_data) :
  length (ocr_text data) = length (ocr_conf data) ->
  exists block,
    current_text_block data = Ok block /\
    trimmed block /\
    (block = [] <->
     Forall (fun tc => confident tc = true -> strip tc.1 = []) (tokens data)).
Proof.
  intros Hlen. eexists. split; [apply current_text_block_parts, Hlen|].
  split; [apply trimmed_concat, parts_of_trimmed|].
  rewrite concat_parts_of.
  etransitivity; [apply concat_nil_iff|]. unfold tokens.
  generalize (zip (ocr_text data) (ocr_conf data)) as l.
  induction l as [|tc l IH]; simpl.
  - split; constructor.
  - destruct (confident tc) eqn:Hc; simpl.
    + rewrite !Forall_cons, IH. tauto.
    + rewrite Forall_cons, IH. split; [intuition congruence | tauto].
Qed.

End TextBlock.

Section ShortCaptions.

Lemma is_new_subtitle_exact (current last : str) :
  current <> [] -> last <> [] ->
  (Nat.max (length current) (length last) <= 200)%nat ->
  is_new_subtitle current last
  = Ok (max_len current last <? 10 * Z.of_nat (distance current last)).
Proof.
  intros Hc Hl Hshort. rewrite is_new_subtitle_cases.
  destruct current as [|c current]; [congruence|].
  destruct last as [|l last]; [congruence|].
  rewrite below_threshold_short by (assumption || discriminate).
  reflexivity.
Qed.

(** X8.  Against a non-empty [last_text_block], a block of at most nine
    characters (both of them) is a new subtitle exactly when it differs
    from it: below ten characters no OCR noise is tolerated. *)
Theorem short_caption_any_change (current last : str) :
  current <> [] -> last <> [] ->
  (Nat.max (length current) (length last) <= 9)%nat ->
  is_new_subtitle current last = Ok true <-> current <> last.
Proof.
  intros Hc Hl Hshort.
  rewrite is_new_subtitle_exact by (assumption || lia).
  unfold max_len, len. split.
  - intros [= H] ->. rewrite distance_same in H. apply Z.ltb_lt in H. lia.
  - intros Hne. f_equal. apply Z.ltb_lt.
    assert (distance current last <> 0)%nat
      by (intros H0; apply Hne, distance_zero, H0).
    lia.
Qed.

(** X9.  For blocks of 10 to 200 characters, a block at edit distance 1
    from [last_text_block] is not a new subtitle: a one-character
    difference is taken for OCR noise. *)
Theorem single_edit_suppressed (current last : str) :
  distance current last = 1%nat ->
  (10 <= Nat.max (length current) (length last) <= 200)%nat ->
  is_new_subtitle current last = Ok false.
Proof.
  intros Hd Hlen. destruct current as [|c current]; [reflexivity|].
  destruct last as [|l last].
  - rewrite distance_nil_r in Hd. simpl in *. lia.
  - rewrite is_new_subtitle_exact by (discriminate || lia).
    rewrite Hd. f_equal. apply Z.ltb_ge. unfold max_len, len. lia.
Qed.

End ShortCaptions.

(* ===================================================================== *)
(** * [process_video] as a whole, and the start-up code                   *)
(* ===================================================================== *)

Section Run.

Context {image : Type}.
Variable extract_info : ydl_opts -> str -> files -> result info_dict * files.
Variable transcribe : str -> files -> result (list segment) * files.
Variable video_capture : str -> files -> capture (image := image).
Variable lower_half : image -> image.
Variable image_to_data : image -> result ocr_data.
Variable encode_jpg : image -> str.

Local Abbreviation run_video :=
  (process_video extract_info transcribe video_capture lower_half
     image_to_data encode_jpg).

Lemma cleanup_is_delete (p : str) (w : files) :
  truthy p = true -> cleanup (Some p) w = delete p w.
Proof.
  intros Hp. unfold cleanup, path_exists, remove. rewrite Hp. cbn [andb].
  destruct (w !! p) eqn:Hw; [reflexivity|].
  symmetry. apply delete_id. exact Hw.
Qed.

(** X10.  What [process_video] does to the file system beyond what its
    collaborators do: nothing when the download raises (the exception is
    passed on), and otherwise exactly the removal of the downloaded file
    from the state the transcriber left; no other path is created, removed
    or resized. *)
Theorem only_temp_file_removed (url : str) (w : files) :
  (forall e w1,
     extract_info (make_opts w) url w = (Raise e, w1) ->
     run_video url w = (Raise e, w1)) /\
  (forall info w1 r w2,
     extract_info (make_opts w) url w = (Ok info, w1) ->
     transcribe (prepare_filename info) w1 = (r, w2) ->
     (run_video url w).2 = delete (prepare_filename info) w2 /\
     forall p, p <> prepare_filename info -> (run_video url w).2 !! p = w2 !! p).
Proof.
  split.
  - intros e w1 Hdl. unfold process_video, try_body. rewrite Hdl. reflexivity.
  - intros info w1 r w2 Hdl Htr.
    assert (H : (run_video url w).2 = delete (prepare_filename info) w2).
    { unfold process_video, try_body. rewrite Hdl, Htr.
      destruct r as [segments|e].
      - destruct (telop_loop _ _ _ _ _) as [[d n]|e]; cbn [snd];
          apply cleanup_is_delete, prepare_filename_truthy.
      - cbn [snd]. apply cleanup_is_delete, prepare_filename_truthy. }
    split; [exact H|]. intros p Hp. rewrite H. now apply lookup_delete_ne.
Qed.

(** X11.  A capture that did not open is no error: with download and
    transcription done, [process_video] returns the voice data with an
    empty list of screenshots, whatever frame rate the capture reports. *)
Theorem unopened_capture_no_screenshots (url : str) (w w1 w2 : files)
    (info : info_dict) (segments : list segment) :
  extract_info (make_opts w) url w = (Ok info, w1) ->
  transcribe (prepare_filename info) w1 = (Ok segments, w2) ->
  cap_opened (video_capture (prepare_filename info) w2) = false ->
  run_video url w
  = (Ok (List.map voice_of_segment segments, []),
     delete (prepare_filename info) w2).
Proof.
  intros Hdl Htr Hcap. unfold process_video, try_body, frames_read.
  rewrite Hdl, Htr, Hcap. cbn [telop_loop frame_loop foldM detector_init].
  rewrite cleanup_is_delete by apply prepare_filename_truthy. reflexivity.
Qed.

(** X12.  In a result of [process_video] the voice data has one entry per
    segment of the transcript, in order, with the segment's start time,
    and each text is the segment's text without the white space around
    it: it is left unchanged by a further [strip()]. *)
Theorem voice_data_stripped (url : str) (w w' : files)
    (voice_data : list voice) (shots : list shot) :
  run_video url w = (Ok (voice_data, shots), w') ->
  exists info w1 segments w2,
    extract_info (make_opts w) url w = (Ok info, w1) /\
    transcribe (prepare_filename info) w1 = (Ok segments, w2) /\
    List.map voice_timestamp voice_data = List.map seg_start segments /\
    List.map voice_text voice_data
    = List.map (fun sg => strip (seg_text sg)) segments /\
    Forall (fun v => trimmed (voice_text v) /\
                     strip (voice_text v) = voice_text v) voice_data.
Proof.
  unfold process_video, try_body.
  destruct (extract_info (make_opts w) url w) as [[info|e] w1] eqn:Hdl;
    [|discriminate].
  destruct (transcribe (prepare_filename info) w1) as [[segments|e] w2]
    eqn:Htr; [|discriminate].
  destruct (telop_loop _ _ _ _ _) as [[d n]|e]; [|discriminate].
  intros [= <- _ _]. exists info, w1, segments, w2.
  split; [reflexivity|]. split; [exact Htr|].
  rewrite !List.map_map. repeat split.
  apply Forall_forall. intros v (sg & -> & _)%list_elem_of_fmap. simpl.
  split; [apply strip_trimmed | apply strip_idempotent].
Qed.

Lemma telop_loop_zero_fps (fps : float) (frame : image) (frames : list image) :
  is_zero fps = true ->
  telop_loop lower_half image_to_data encode_jpg fps (frame :: frames)
  = Raise ZeroDivisionError.
Proof. destruct fps; try discriminate. reflexivity. Qed.

(** X13.  A capture that opened, delivers at least one frame and reports a
    frame rate of zero (as OpenCV does for a source without one) aborts
    the run: line 72 raises [ZeroDivisionError] on the first frame, and
    [process_video] passes it on after removing the downloaded file. *)
Theorem zero_frame_rate_aborts (url : str) (w w1 w2 : files)
    (info : info_dict) (segments : list segment)
    (frame : image) (frames : list image) :
  extract_info (make_opts w) url w = (Ok info, w1) ->
  transcribe (prepare_filename info) w1 = (Ok segments, w2) ->
  cap_opened (video_capture (prepare_filename info) w2) = true ->
  cap_frames (video_capture (prepare_filename info) w2) = frame :: frames ->
  is_zero (cap_fps (video_capture (prepare_filename info) w2)) = true ->
  run_video url w
  = (Raise ZeroDivisionError, delete (prepare_filename info) w2).
Proof.
  intros Hdl Htr Hopen Hframes Hzero.
  unfold process_video, try_body, frames_read.
  rewrite Hdl, Htr, Hopen, Hframes, telop_loop_zero_fps by assumption.
  rewrite cleanup_is_delete by apply prepare_filename_truthy.
  reflexivity.
Qed.

End Run.

Section StartupFacts.

Variable encoded_size : str -> Z.

(** X14.  The start-up code creates the cookie file at most once and never
    touches another path: an existing [cookies.txt] is left as it is,
    whatever the secret holds, and running the start-up code again with
    the same secret changes nothing. *)
Theorem cookie_file_written_once (content : option str) (w : files) :
  (path_exists cookie_file_path w = true ->
   create_cookie_file encoded_size content w = w) /\
  create_cookie_file encoded_size content
    (create_cookie_file encoded_size content w)
  = create_cookie_file encoded_size content w /\
  (forall p, p <> cookie_file_path ->
             create_cookie_file encoded_size content w !! p = w !! p).
Proof.
  unfold create_cookie_file. destruct content as [c|]; [|auto].
  destruct (truthy c) eqn:Hc; cbn [andb]; [|auto].
  destruct (path_exists cookie_file_path w) eqn:Hex; cbn [negb].
  - rewrite Hex. auto.
  - split; [discriminate|]. split.
    + unfold path_exists. rewrite lookup_insert_eq. reflexivity.
    + intros p Hp. now apply lookup_insert_ne.
Qed.

(** X15.  After the start-up code, [process_video] hands the cookie file to
    the downloader exactly when a non-empty [cookies.txt] was there
    before, or none was there and the secret is set and not empty
    (provided a non-empty text is written as at least one byte).  An
    empty [cookies.txt] left behind keeps the cookies off, whatever the
    secret holds. *)
Theorem cookie_in_use_after_startup (content : option str) (w : files) :
  (forall s, s <> [] -> 0 < encoded_size s) ->
  use_cookie (create_cookie_file encoded_size content w) = true <->
  (exists size, w !! cookie_file_path = Some size /\ 0 < size) \/
  (w !! cookie_file_path = None /\
   exists c, content = Some c /\ c <> []).
Proof.
  intros Hsize. unfold use_cookie, create_cookie_file, path_exists.
  destruct (w !! cookie_file_path) as [size|] eqn:Hw.
  - assert (Hsame : (match content with
                     | Some c => if truthy c && negb true then
                                   <[cookie_file_path := encoded_size c]> w
                                 else w
                     | None => w
                     end) = w)
      by (destruct content as [c|]; [rewrite andb_false_r|]; reflexivity).
    rewrite Hsame, Hw. rewrite Z.ltb_lt. split.
    + intros H. left. eauto.
    + intros [(size' & [= <-] & H)|[H _]]; [exact H | discriminate].
  - destruct content as [[|a c]|]; cbn [truthy andb negb].
    + rewrite Hw. split; [discriminate|].
      intros [(size & H & _)|(_ & c & [= <-] & H)]; congruence.
    + rewrite lookup_insert_eq, Z.ltb_lt. split.
      * intros _. right. split; [reflexivity|]. eexists. split; eauto.
      * intros _. apply Hsize. discriminate.
    + rewrite Hw. split; [discriminate|].
      intros [(size & H & _)|(_ & c & H & _)]; discriminate.
Qed.

End StartupFacts.

(* ===================================================================== *)
(** * Fusion: keys, failures, rows                                        *)
(* ===================================================================== *)

Section Keys.

Lemma time_key_finite (e : event) :
  (exists k, time_key e = Ok k) <-> finite (ev_timestamp e) = true.
Proof.
  unfold time_key, int_of_float, finite.
  destruct (ev_timestamp e); split; eauto; try discriminate;
    intros [k Hk]; discriminate.
Qed.

Lemma time_key_raises (e : event) (x : exn) :
  time_key e = Raise x -> x = OverflowError \/ x = ValueError.
Proof.
  unfold time_key, int_of_float.
  destruct (ev_timestamp e); intros [= <-]; auto.
Qed.

Lemma time_key_cut (e : event) :
  finite (ev_timestamp e) = true ->
  exists q, value (ev_timestamp e) = Some q /\
            time_key e = Ok (towards_zero q).
Proof.
  unfold time_key, towards_zero.
  destruct (ev_timestamp e) as [s|s| |s m ex] eqn:Hts; try discriminate.
  - intros _. exists 0%Q. split; reflexivity.
  - intros _. destruct s.
    + simpl. unfold trunc_mag.
      destruct (Z.leb_spec 0 ex) as [He|He]; eexists; (split; [reflexivity|]).
      * pose proof (pow2_pos ex He) as Hp.
        destruct (Qle_bool 0 _) eqn:Hle.
        -- apply Qle_bool_iff in Hle. change 0%Q with (inject_Z 0) in Hle.
           rewrite <- Zle_Qle in Hle. simpl in Hle. nia.
        -- rewrite Qceiling_Z, Z.shiftl_mul_pow2 by lia. reflexivity.
      * pose proof (pow2_pos (- ex) ltac:(lia)) as Hp.
        destruct (Qle_bool 0 _) eqn:Hle.
        -- apply Qle_bool_iff in Hle. unfold Qle in Hle. simpl in Hle. lia.
        -- rewrite Z.shiftr_div_pow2 by lia.
           unfold Qceiling, Qfloor, Qopp. simpl.
           rewrite Z2Pos.id by assumption. reflexivity.
    + destruct (int_of_float_floor (S754_finite false m ex) eq_refl)
        as (q & Hv & Hq & Hint).
      exists q. split; [exact Hv|]. rewrite Hint.
      apply Qle_bool_iff in Hq. rewrite Hq. reflexivity.
Qed.

Lemma towards_zero_is_zero (q : Q) :
  towards_zero q = 0 <-> (inject_Z (-1) < q /\ q < inject_Z 1)%Q.
Proof.
  unfold towards_zero. destruct (Qle_bool 0 q) eqn:Hle.
  - apply Qle_bool_iff in Hle. split.
    + intros H0. split.
      * eapply Qlt_le_trans; [|exact Hle]. reflexivity.
      * pose proof (Qlt_floor q) as H. now rewrite H0 in H.
    + intros [_ Hlt].
      pose proof (Qfloor_resp_le (inject_Z 0) q Hle) as Hlo. rewrite Qfloor_Z in Hlo.
      assert (Hhi : Qfloor q < 1).
      { rewrite Zlt_Qlt. eapply Qle_lt_trans; [apply Qfloor_le | exact Hlt]. }
      lia.
  - assert (Hneg : (q < 0)%Q).
    { apply Qnot_le_lt. intros H. apply Qle_bool_iff in H. congruence. }
    split.
    + intros H0. split.
      * pose proof (Qceiling_lt q) as H. now rewrite H0 in H.
      * eapply Qlt_trans; [exact Hneg | reflexivity].
    + intros [Hgt _].
      pose proof (Qceiling_resp_le q (inject_Z 0) (Qlt_le_weak _ _ Hneg)) as Hhi.
      rewrite Qceiling_Z in Hhi.
      assert (Hlo : -1 < Qceiling q).
      { rewrite Zlt_Qlt. eapply Qlt_le_trans; [exact Hgt | apply Qle_ceiling]. }
      lia.
Qed.

(** X16.  The key of an event with a finite timestamp is the timestamp cut
    towards zero: its floor when it is not below zero, its ceiling when it
    is.  The events of key 0 are therefore those with a timestamp strictly
    between -1 and 1. *)
Theorem time_key_towards_zero (e : event) :
  finite (ev_timestamp e) = true ->
  exists q, value (ev_timestamp e) = Some q /\
            time_key e = Ok (towards_zero q) /\
            (time_key e = Ok 0 <-> (inject_Z (-1) < q /\ q < inject_Z 1)%Q).
Proof.
  intros Hfin. destruct (time_key_cut e Hfin) as (q & Hv & Hk).
  exists q. split; [exact Hv|]. split; [exact Hk|].
  rewrite Hk, <- towards_zero_is_zero. split; [now intros [= ->] | now intros ->].
Qed.

End Keys.

Section FuseOutcome.

Lemma foldM_raise {St X} (step : St -> X -> result St) (xs : list X) :
  forall (s : St) (e : exn),
    foldM step xs s = Raise e ->
    exists s' x, x ∈ xs /\ step s' x = Raise e.
Proof.
  induction xs as [|x xs IH]; intros s e; simpl; [discriminate|].
  destruct (step s x) as [s1|e1] eqn:Hstep; simpl.
  - intros H. destruct (IH s1 e H) as (s' & y & Hy & Hr).
    exists s', y. split; [now right | exact Hr].
  - intros [= <-]. exists s, x. split; [now left | exact Hstep].
Qed.

Lemma fuse_raise (youtube_url : str) (voice_data : list voice)
    (shots : list shot) (x : exn) :
  fuse youtube_url voice_data shots = Raise x ->
  exists e, e ∈ all_events voice_data shots /\ time_key e = Raise x.
Proof.
  unfold fuse.
  destruct (grouped_events (all_events voice_data shots)) as [grouped|x']
    eqn:Hg; simpl.
  - rewrite render_rows; [discriminate|].
    apply Forall_forall. intros k. apply elem_of_sorted_timestamps.
  - intros [= <-]. apply foldM_raise in Hg as (g & e & He & Hadd).
    exists e. split; [exact He|]. unfold add_event in Hadd.
    destruct (time_key e); [discriminate|]. simpl in Hadd.
    now injection Hadd as ->.
Qed.

(** X17.  The grouping loop succeeds exactly when every timestamp is
    finite; when it fails it raises [ValueError] or [OverflowError], the
    exception of [int()] on a NaN or an infinite timestamp. *)
Theorem grouping_succeeds_iff_finite (events : list event) :
  ((exists grouped, grouped_events events = Ok grouped) <->
   Forall (fun e => finite (ev_timestamp e) = true) events) /\
  (forall x, grouped_events events = Raise x ->
             x = OverflowError \/ x = ValueError).
Proof.
  split; [split|].
  - intros (grouped & Hg). apply grouped_events_keys in Hg.
    eapply Forall_impl; [exact Hg|]. intros e He. now apply time_key_finite.
  - intros Hfin. apply foldM_add_event_total.
    eapply Forall_impl; [exact Hfin|]. intros e He. now apply time_key_finite.
  - intros x (g & e & _ & Hadd)%foldM_raise.
    apply (time_key_raises e x). unfold add_event in Hadd.
    destruct (time_key e); [discriminate|]. simpl in Hadd.
    now injection Hadd as ->.
Qed.

Lemma row_has_event (youtube_url : str) (evs : list event)
    (grouped : gmap Z group) (k : Z) :
  grouped_events evs = Ok grouped -> k ∈ sorted_timestamps grouped ->
  exists e, e ∈ evs /\
            e ∈ members (row_group (row_for youtube_url grouped k)) /\
            time_key e = Ok k.
Proof.
  intros Hg Hk.
  destruct (row_group_for youtube_url evs grouped k Hg Hk) as [-> Hex].
  apply existsb_exists in Hex as (e & He & Hb).
  apply list_elem_of_In in He. exists e. split; [exact He|].
  split; [now apply elem_of_members_group_of|].
  unfold in_bucket in Hb. destruct (time_key e) as [k'|]; [|discriminate].
  apply Z.eqb_eq in Hb. now subst k'.
Qed.

(** X18.  No row of a fused result is empty: each holds an input event
    whose key is the row's key.  There are thus at most as many rows as
    events. *)
Theorem rows_hold_events (youtube_url : str) (voice_data : list voice)
    (shots : list shot) (rows : list row) :
  fuse youtube_url voice_data shots = Ok rows ->
  (forall r, r ∈ rows ->
     exists e, e ∈ all_events voice_data shots /\
               e ∈ members (row_group r) /\
               time_key e = Ok (row_key r)) /\
  (length rows <= length voice_data + length shots)%nat.
Proof.
  intros (grouped & Hg & ->)%fuse_rows.
  set (evs := all_events voice_data shots) in *.
  split.
  - intros r (k & -> & Hk)%list_elem_of_fmap.
    exact (row_has_event youtube_url evs grouped k Hg Hk).
  - rewrite length_map.
    replace (length voice_data + length shots)%nat
      with (length (List.map (fun e => match time_key e with
                                       | Ok k => k
                                       | Raise _ => 0
                                       end) evs))
      by (unfold evs, all_events; rewrite !length_map, length_app,
            !length_map; reflexivity).
    apply submseteq_length, NoDup_submseteq; [apply NoDup_sorted_timestamps|].
    intros k Hk.
    destruct (row_has_event youtube_url evs grouped k Hg Hk)
      as (e & He & _ & Hke).
    apply list_elem_of_fmap. exists e. rewrite Hke. auto.
Qed.

End FuseOutcome.

Section Anchor.

Lemma before_app_sep (sep : char) (s t : str) :
  sep ∉ s -> before sep (s ++ sep :: t) = s.
Proof.
  induction s as [|c s IH]; simpl; intros Hs.
  - now rewrite N.eqb_refl.
  - apply not_elem_of_cons in Hs as [Hne Hs].
    destruct (N.eqb_spec c sep); [congruence|]. now rewrite IH.
Qed.

(** X19.  Anchoring a link that [jump_url] produced replaces its time
    anchor instead of adding one: the link for [k'] made from the link for
    [k] is the link for [k'] made from the request URL. *)
Theorem jump_url_replaces_anchor (youtube_url link : str) (k k' : Z) :
  jump_url youtube_url k = Ok link ->
  jump_url link k' = jump_url youtube_url k'.
Proof.
  rewrite !jump_url_value. intros [= <-]. f_equal. f_equal.
  destruct (before_spec 38%N youtube_url) as (tail & _ & Hnot & _).
  unfold base_url.
  change (lit "&t=") with (38%N :: lit "t=").
  cbn [app]. now apply before_app_sep.
Qed.

End Anchor.

(* ===================================================================== *)
(** * The display of the rows                                             *)
(* ===================================================================== *)

Section DisplayFacts.

Lemma timedelta_str_done (ts : Z) :
  in_timedelta_range ts -> exists s, timedelta_str ts = Done s.
Proof.
  unfold in_timedelta_range, timedelta_str. intros Hts.
  pose proof (Z.div_mod ts 86400 ltac:(lia)) as Hdm.
  pose proof (Z.mod_pos_bound ts 86400 ltac:(lia)) as Hm.
  destruct (Z.ltb_spec 999999999 (Z.abs (ts / 86400))) as [Hbig|_]; [lia|].
  eauto.
Qed.

Lemma for_each_failed {X W} (body : X -> outcome (list W)) (xs : list X)
    (f : failure) :
  for_each body xs = Failed f -> exists x, x ∈ xs /\ body x = Failed f.
Proof.
  induction xs as [|x xs IH]; simpl; [discriminate|].
  destruct (body x) as [ws|f'] eqn:Hx; simpl.
  - destruct (for_each body xs) as [rest|f'']; simpl; [discriminate|].
    intros [= <-]. destruct (IH eq_refl) as (y & Hy & Hf).
    exists y. split; [now right | exact Hf].
  - intros [= <-]. exists x. split; [now left | exact Hx].
Qed.

Lemma for_each_telop_widgets (telop : list event) :
  Forall (fun e => is_Some (ev_text e)) telop ->
  exists ws,
    for_each telop_widgets telop = Done ws /\
    List.filter is_heading ws = [] /\
    length (List.filter is_image ws) = length telop /\
    length (List.filter is_caption ws) = length telop.
Proof.
  induction 1 as [|e telop [text He] _ (ws & Hws & Hh & Hi & Hc)]; simpl.
  - exists []. auto.
  - assert (Hw : exists src body,
                telop_widgets e = Done [Image src; Caption body])
      by (unfold telop_widgets; rewrite He; eauto).
    destruct Hw as (src & body & ->). simpl. rewrite Hws. simpl.
    eexists. split; [reflexivity|]. simpl. auto.
Qed.

Lemma telop_group_has_text (youtube_url : str) (voice_data : list voice)
    (shots : list shot) (rows : list row) (r : row) :
  fuse youtube_url voice_data shots = Ok rows -> r ∈ rows ->
  Forall (fun e => is_Some (ev_text e)) (g_telop (row_group r)) /\
  members (row_group r) <> [].
Proof.
  intros (grouped & Hg & ->)%fuse_rows (k & -> & Hk)%list_elem_of_fmap.
  split.
  - destruct (row_group_for youtube_url _ grouped k Hg Hk) as [-> _].
    rewrite group_of_streams. simpl. apply Forall_forall.
    intros e [He _]%elem_of_filter_bool.
    apply list_elem_of_fmap in He as (s & -> & _). simpl. eauto.
  - destruct (row_has_event youtube_url _ grouped k Hg Hk) as (e & _ & He & _).
    intros Hnil. rewrite Hnil in He. now apply elem_of_nil in He.
Qed.

Lemma filter_heading_quotes (voice : list event) :
  List.filter is_heading (List.map quote voice) = [].
Proof. induction voice; simpl; auto. Qed.

(** X20.  Every row of a fused result whose key [timedelta] accepts is
    displayed, and with exactly one heading carrying the time anchor: in
    the voice column, above the quotes, when the row has voice events,
    and otherwise at the top of the telop column.  The telop column shows
    one image and one caption per telop event. *)
Theorem anchor_shown_once (youtube_url : str) (voice_data : list voice)
    (shots : list shot) (rows : list row) (r : row) :
  fuse youtube_url voice_data shots = Ok rows -> r ∈ rows ->
  in_timedelta_range (row_key r) ->
  exists time_str sh,
    timedelta_str (row_key r) = Done time_str /\
    display_row r = Done sh /\
    length (List.filter is_heading (col1 sh ++ col2 sh)) = 1%nat /\
    (g_voice (row_group r) <> [] ->
     col1 sh = heading icon_voice (row_jump_url r) time_str
               :: List.map quote (g_voice (row_group r))) /\
    (g_voice (row_group r) = [] ->
     col1 sh = [] /\
     head (col2 sh) = Some (heading icon_telop (row_jump_url r) time_str)) /\
    length (List.filter is_image (col2 sh)) = length (g_telop (row_group r)) /\
    length (List.filter is_caption (col2 sh)) = length (g_telop (row_group r)).
Proof.
  intros Hfuse Hr Hrange.
  destruct (telop_group_has_text _ _ _ _ r Hfuse Hr) as [Htext Hne].
  destruct (timedelta_str_done _ Hrange) as [time_str Htime].
  destruct (for_each_telop_widgets _ Htext) as (ws & Hws & Hh & Hi & Hc).
  exists time_str. unfold display_row. rewrite Htime. simpl. rewrite Hws.
  unfold members in Hne.
  destruct (g_voice (row_group r)) as [|v voice] eqn:Hv;
    destruct (g_telop (row_group r)) as [|t telop] eqn:Ht;
    simpl in *; try congruence;
    (eexists; split; [reflexivity|]; split; [reflexivity|]); simpl.
  - rewrite Hh. repeat split; auto; congruence.
  - rewrite app_nil_r, filter_heading_quotes. simpl in Hws.
    injection Hws as <-. repeat split; auto; congruence.
  - rewrite List.filter_app, filter_heading_quotes, Hh.
    repeat split; auto; congruence.
Qed.

(** X21.  The display never raises [KeyError]: whatever it is given, it
    either shows every row or raises the [ValueError] or [OverflowError]
    of a timestamp that is not finite or of a key beyond the range of
    [timedelta]. *)
Theorem display_never_key_error (youtube_url : str) (voice_data : list voice)
    (shots : list shot) (f : failure) :
  display youtube_url voice_data shots = Failed f ->
  f = Builtin OverflowError \/ f = Builtin ValueError.
Proof.
  unfold display.
  destruct (fuse youtube_url voice_data shots) as [rows|x] eqn:Hfuse.
  - intros (r & Hr & Hrow)%for_each_failed.
    destruct (telop_group_has_text _ _ _ _ r Hfuse Hr) as [Htext _].
    destruct (for_each_telop_widgets _ Htext) as (ws & Hws & _).
    unfold display_row in Hrow. unfold timedelta_str in Hrow.
    destruct (999999999 <? _); simpl in Hrow.
    + injection Hrow as <-. now left.
    + rewrite Hws in Hrow. simpl in Hrow.
      destruct (nonempty (g_telop (row_group r))); discriminate.
  - intros [= <-]. apply fuse_raise in Hfuse as (e & _ & He).
    destruct (time_key_raises e x He) as [-> | ->]; auto.
Qed.

End DisplayFacts.

(* ===================================================================== *)
(** * Instances                                                           *)
(* ===================================================================== *)

(** The second of three frames is not sampled at 2 fps, and the OCR
    engine fails on it. *)
Lemma held_caption_adds_nothing_witness :
  ocr_fails_on_1 (no_crop 1%nat) = Raise OcrFailure /\
  foldM (frame_step_reporting no_crop ocr_fails_on_1 encode_name report_ok
           (float_of_int 2)) three_frames (seen_hello, 0)
  = Ok (seen_hello, 3) /\
  seen_hello = seen_hello /\ 3 = 0 + Z.of_nat (length three_frames).
Proof.
  split; [reflexivity|]. split; [reflexivity|].
  refine (held_caption_adds_nothing no_crop ocr_fails_on_1 encode_name
            report_ok (float_of_int 2) three_frames seen_hello seen_hello
            0 3 _ eq_refl).
  intros i frame period [= <-] Hi Hmod.
  destruct i as [|[|[|i]]]; simpl in Hi; try discriminate;
    injection Hi as <-; exists (lit "HELLO");
    (split; [exists ocr_hello; split; reflexivity | right; reflexivity]).
Defined.

Lemma screenshots_have_text_witness :
  telop_loop no_crop ocr_changes_at_1 encode_name (float_of_int 1)
    [0%nat; 1%nat]
  = Ok (seen_both, 2) /\
  last_text_block seen_both = last_text [] (telop_screenshots seen_both).
Proof.
  split; [reflexivity|].
  exact (proj1 (proj2 (screenshots_have_text no_crop ocr_changes_at_1
                         encode_name (float_of_int 1) [0%nat; 1%nat]
                         seen_both 2 eq_refl))).
Defined.

Lemma consecutive_screenshots_differ_witness :
  telop_loop no_crop ocr_changes_at_1 encode_name (float_of_int 1)
    [0%nat; 1%nat]
  = Ok (seen_both, 2) /\
  lit "GOODBYE" <> lit "HELLO".
Proof.
  split; [reflexivity|].
  exact (proj2 (consecutive_screenshots_differ no_crop ocr_changes_at_1
                  encode_name (float_of_int 1) [0%nat; 1%nat] seen_both 2
                  0%nat (shot_hello (S754_zero false))
                  (shot_goodbye (float_of_int 1)) eq_refl eq_refl eq_refl)).
Defined.

Lemma ocr_only_on_sampled_frames_witness :
  ceil (float_of_int 2) = Ok 2 /\
  telop_loop no_crop ocr_fails_on_1 encode_name (float_of_int 2) three_frames
  = telop_loop no_crop ocr_always_hello encode_name (float_of_int 2)
      three_frames.
Proof.
  split; [reflexivity|].
  apply ocr_only_on_sampled_frames.
  intros i frame period [= <-] Hi Hmod.
  destruct i as [|[|[|i]]]; simpl in Hi; try discriminate;
    injection Hi as <-; reflexivity.
Defined.

Lemma screenshots_from_samples_witness :
  positive_float (float_of_int 1) = true /\
  telop_loop no_crop ocr_changes_at_1 encode_name (float_of_int 1)
    [0%nat; 1%nat]
  = Ok (seen_both, 2) /\
  (length (telop_screenshots seen_both) <= length [0%nat; 1%nat])%nat.
Proof.
  do 2 (split; [reflexivity|]).
  destruct (screenshots_from_samples no_crop ocr_changes_at_1 encode_name
              (float_of_int 1) [0%nat; 1%nat] seen_both 2 eq_refl eq_refl)
    as (period & _ & _ & Hlen).
  exact Hlen.
Defined.

Lemma short_conf_column_raises_witness :
  (length (ocr_conf ocr_short_conf) < length (ocr_text ocr_short_conf))%nat /\
  current_text_block ocr_short_conf = Raise IndexError.
Proof.
  assert (H : (length (ocr_conf ocr_short_conf)
               < length (ocr_text ocr_short_conf))%nat) by (simpl; lia).
  split; [exact H|]. exact (short_conf_column_raises ocr_short_conf H).
Defined.

Lemma text_block_trimmed_witness :
  length (ocr_text ocr_blank_token) = length (ocr_conf ocr_blank_token) /\
  exists block, current_text_block ocr_blank_token = Ok block /\ trimmed block.
Proof.
  split; [reflexivity|].
  destruct (text_block_trimmed ocr_blank_token eq_refl)
    as (block & Hblock & Htrim & _).
  exists block. split; assumption.
Defined.

Lemma short_caption_any_change_witness :
  lit "HELLO" <> [] /\ lit "JELLO" <> [] /\
  (Nat.max (length (lit "HELLO")) (length (lit "JELLO")) <= 9)%nat /\
  lit "HELLO" <> lit "JELLO" /\
  is_new_subtitle (lit "HELLO") (lit "JELLO") = Ok true.
Proof.
  assert (H1 : lit "HELLO" <> []) by discriminate.
  assert (H2 : lit "JELLO" <> []) by discriminate.
  assert (H3 : (Nat.max (length (lit "HELLO")) (length (lit "JELLO")) <= 9)%nat)
    by (vm_compute; lia).
  assert (H4 : lit "HELLO" <> lit "JELLO") by discriminate.
  do 4 (split; [assumption|]).
  exact (proj2 (short_caption_any_change _ _ H1 H2 H3) H4).
Defined.

Lemma single_edit_suppressed_witness :
  distance (lit "HELLO WORLD!") (lit "HELLO WORLD") = 1%nat /\
  (10 <= Nat.max (length (lit "HELLO WORLD!")) (length (lit "HELLO WORLD"))
   <= 200)%nat /\
  is_new_subtitle (lit "HELLO WORLD!") (lit "HELLO WORLD") = Ok false.
Proof.
  assert (H : (10 <= Nat.max (length (lit "HELLO WORLD!"))
                       (length (lit "HELLO WORLD")) <= 200)%nat)
    by (vm_compute; lia).
  split; [reflexivity|]. split; [exact H|].
  exact (single_edit_suppressed (lit "HELLO WORLD!") (lit "HELLO WORLD")
           eq_refl H).
Defined.

Lemma only_temp_file_removed_witness :
  download_mp4 (make_opts ∅) watch_url ∅
  = (Ok mp4, <[prepare_filename mp4 := 1000]> ∅) /\
  (process_video download_mp4 transcribe_one capture_three no_crop
     ocr_never_fails encode_name watch_url ∅).2
  = delete (prepare_filename mp4) (<[prepare_filename mp4 := 1000]> ∅).
Proof.
  split; [reflexivity|].
  exact (proj1 (proj2 (only_temp_file_removed download_mp4 transcribe_one
                         capture_three no_crop ocr_never_fails encode_name
                         watch_url ∅) mp4 _ _ _ eq_refl eq_refl)).
Defined.

Lemma unopened_capture_no_screenshots_witness :
  cap_opened (capture_closed (prepare_filename mp4)
                (<[prepare_filename mp4 := 1000]> ∅)) = false /\
  (process_video download_mp4 transcribe_one capture_closed no_crop
     ocr_never_fails encode_name watch_url ∅).1
  = Ok ([voice_12_3], []).
Proof.
  split; [reflexivity|].
  rewrite (unopened_capture_no_screenshots download_mp4 transcribe_one
             capture_closed no_crop ocr_never_fails encode_name watch_url
             ∅ _ _ mp4 _ eq_refl eq_refl eq_refl).
  reflexivity.
Defined.

Lemma zero_frame_rate_aborts_witness :
  cap_frames (capture_no_fps (prepare_filename mp4)
                (<[prepare_filename mp4 := 1000]> ∅)) = three_frames /\
  process_video download_mp4 transcribe_one capture_no_fps no_crop
    ocr_never_fails encode_name watch_url ∅
  = (Raise ZeroDivisionError, ∅).
Proof.
  split; [reflexivity|].
  rewrite (zero_frame_rate_aborts download_mp4 transcribe_one capture_no_fps
             no_crop ocr_never_fails encode_name watch_url ∅ _ _ mp4 _
             0%nat [1%nat; 2%nat] eq_refl eq_refl eq_refl eq_refl eq_refl).
  reflexivity.
Defined.

Lemma voice_data_stripped_witness :
  process_video download_mp4 transcribe_one capture_closed no_crop
    ocr_never_fails encode_name watch_url ∅
  = (Ok ([voice_12_3], []), ∅) /\
  Forall (fun v => trimmed (voice_text v) /\ strip (voice_text v) = voice_text v)
         [voice_12_3].
Proof.
  split; [reflexivity|].
  destruct (voice_data_stripped download_mp4 transcribe_one capture_closed
              no_crop ocr_never_fails encode_name watch_url ∅ ∅
              [voice_12_3] [] eq_refl)
    as (info & w1 & segments & w2 & _ & _ & _ & _ & H).
  exact H.
Defined.

Lemma cookie_in_use_after_startup_witness :
  (forall s : str, s <> [] -> 0 < one_byte_each s) /\
  use_cookie (create_cookie_file one_byte_each (Some (lit "SID=1")) ∅) = true.
Proof.
  assert (H : forall s : str, s <> [] -> 0 < one_byte_each s).
  { intros [|c s] Hs; [congruence|]. unfold one_byte_each, len. simpl length.
    lia. }
  split; [exact H|].
  apply (cookie_in_use_after_startup one_byte_each (Some (lit "SID=1")) ∅ H).
  right. split; [reflexivity|]. exists (lit "SID=1").
  split; [reflexivity | discriminate].
Defined.

Lemma time_key_towards_zero_witness :
  finite (ev_timestamp (event_of_voice (voice_at minus_half))) = true /\
  time_key (event_of_voice (voice_at minus_half)) = Ok 0 /\
  exists q, value minus_half = Some q /\ towards_zero q = 0.
Proof.
  split; [reflexivity|]. split; [reflexivity|].
  destruct (time_key_towards_zero (event_of_voice (voice_at minus_half))
              eq_refl) as (q & Hv & Hk & _).
  exists q. split; [exact Hv|]. now injection Hk.
Defined.

Lemma rows_hold_events_witness :
  fuse watch_url [voice_12_3] [shot_12_9] = Ok [row_12] /\
  (length [row_12] <= length [voice_12_3] + length [shot_12_9])%nat.
Proof.
  split; [reflexivity|].
  exact (proj2 (rows_hold_events watch_url [voice_12_3] [shot_12_9] [row_12]
                  eq_refl)).
Defined.

Lemma jump_url_replaces_anchor_witness :
  jump_url watch_url 12 = Ok link_12 /\
  jump_url link_12 75 = jump_url watch_url 75.
Proof.
  split; [reflexivity|].
  exact (jump_url_replaces_anchor watch_url link_12 12 75 eq_refl).
Defined.

Lemma anchor_shown_once_witness :
  fuse watch_url [voice_12_3] [shot_12_9] = Ok [row_12] /\
  in_timedelta_range (row_key row_12) /\
  exists sh, display_row row_12 = Done sh /\
             col1 sh = [heading icon_voice link_12 (lit "0:00:12");
                        quote (event_of_voice voice_12_3)].
Proof.
  assert (Hrange : in_timedelta_range (row_key row_12))
    by (unfold in_timedelta_range; simpl; lia).
  split; [reflexivity|]. split; [exact Hrange|].
  destruct (anchor_shown_once watch_url [voice_12_3] [shot_12_9] [row_12]
              row_12 eq_refl (list_elem_of_here row_12 []) Hrange)
    as (time_str & sh & Htime & Hsh & _ & Hvoice & _).
  exists sh. split; [exact Hsh|].
  rewrite (Hvoice ltac:(discriminate)). injection Htime as <-. reflexivity.
Defined.

Lemma display_never_key_error_witness :
  display watch_url [voice_at S754_nan] [] = Failed (Builtin ValueError) /\
  (Builtin ValueError = Builtin OverflowError \/
   Builtin ValueError = Builtin ValueError).
Proof.
  split; [reflexivity|].
  exact (display_never_key_error watch_url [voice_at S754_nan] []
           (Builtin ValueError) eq_refl).
Defined.
